(** * Boot control message and update image writer (updater/bootloader.c)

    A shallow embedding of [get_bootloader_message],
    [set_bootloader_message] and [write_update_for_bootloader].

    The three functions are straight-line C code whose every interesting
    step is a call into a collaborator that lives outside the file: the
    MTD partition primitives of mtdutils, a few libc calls and the
    logging macros.  The embedding therefore represents a function as a
    finite tree of such calls ([prog]); the answers come from a handler,
    and running a program against a handler yields the returned value
    together with the trace of every call and of every log line.

    Target conventions (32-bit little-endian ARM EABI, the platform of
    the devices this file is built for): [int], [unsigned], [size_t] and
    [ssize_t] are 32 bits wide, plain [char] is unsigned.  [off_t]
    values are only stored, compared and converted, so they are kept as
    unbounded integers. *)

From Stdlib Require Import String ZArith List Lia Bool.
Import ListNotations.
Local Open Scope Z_scope.

(** ** Machine integers *)

Definition to_unsigned (z : Z) : Z := z mod 2 ^ 32.

Definition to_signed (z : Z) : Z :=
  let u := z mod 2 ^ 32 in if u <? 2 ^ 31 then u else u - 2 ^ 32.

Definition INT_MAX : Z := 2 ^ 31 - 1.
Definition INT_MIN : Z := - 2 ^ 31.

(** Little-endian object representation of an [unsigned]. *)
Definition le32 (z : Z) : list Z :=
  let u := to_unsigned z in
  [u mod 256; (u / 256) mod 256; (u / 65536) mod 256; (u / 16777216) mod 256].

Definition sizeof_size_t : Z := 4.

(** ** Byte buffers *)

Definition zeros (n : Z) : list Z := repeat 0 (Z.to_nat n).

(** A buffer of exactly [n] bytes holding [l] (what a callee reports
    about a caller-supplied array of [n] bytes). *)
Definition fit (n : Z) (l : list Z) : list Z :=
  firstn (Z.to_nat n) (l ++ zeros (n - Z.of_nat (length l))).

(** [memcpy(&buf[off], src, length src)]; [None] when the copy leaves
    the array. *)
Definition memcpy_to (buf : list Z) (off : Z) (src : list Z) : option (list Z) :=
  if (0 <=? off) && (off + Z.of_nat (length src) <=? Z.of_nat (length buf))
  then Some (firstn (Z.to_nat off) buf ++ src
             ++ skipn (Z.to_nat off + length src) buf)
  else None.

(** [memcpy(dst, &buf[off], n)]; [None] when the copy leaves the array. *)
Definition memcpy_from (buf : list Z) (off n : Z) : option (list Z) :=
  if (0 <=? off) && (0 <=? n) && (off + n <=? Z.of_nat (length buf))
  then Some (firstn (Z.to_nat n) (skipn (Z.to_nat off) buf))
  else None.

(** The bytes of a C string starting at the head of [l]; [None] when no
    terminator is found inside the object. *)
Fixpoint cstring (l : list Z) : option (list Z) :=
  match l with
  | [] => None
  | b :: l' => if b =? 0 then Some []
               else match cstring l' with
                    | Some s => Some (b :: s)
                    | None => None
                    end
  end.

(** ** Constants and types declared in headers outside this file *)

Class Config : Type := {
  MISC_NAME : string;
  CACHE_NAME : string;
  UPDATE_MAGIC : list Z;          (* UPDATE_MAGIC_SIZE bytes *)
  UPDATE_VERSION : Z;
  LOG_MAGIC : list Z;             (* LOG_MAGIC_SIZE bytes *)
  sizeof_bootloader_message : Z;  (* sizeof(struct bootloader_message) *)
  command_offset : Z              (* offsetof(struct bootloader_message, command) *)
}.

Definition MISC_PAGES : Z := 3.
Definition MISC_COMMAND_PAGE : Z := 1.

(** A [struct bootloader_message] is handled through its object
    representation only. *)
Definition bootloader_message : Type := list Z.

(** ** Calls into the collaborators *)

Definition ptr : Type := option nat.   (* [None] is NULL *)

Inductive info_field : Type := erase_size_field | write_size_field.

Inductive whence : Type := SEEK_END.

Inductive call : Type :=
| mtd_find_partition_by_name (name : string)
| mtd_partition_info (part : ptr) (want : info_field)
| mtd_read_partition (part : ptr)
| mtd_read_data (ctx : ptr) (len : Z)
| mtd_read_close (ctx : ptr)
| mtd_write_partition (part : ptr)
| mtd_write_data (ctx : ptr) (data : option (list Z)) (len : Z)
| mtd_erase_blocks (ctx : ptr) (blocks : Z)
| mtd_find_write_start (ctx : ptr) (pos : Z)
| mtd_write_close (ctx : ptr)
| malloc (n : Z)
| fopen (name : string) (mode : string)
| fseek (f : ptr) (off : Z) (wh : whence)
| fread (f : ptr) (size count : Z)
| fclose (f : ptr).

(** What each call hands back.  [mtd_partition_info] returns its status
    and the value stored through the one non-NULL out pointer;
    [mtd_read_data] and [fread] return their count and the bytes they
    stored; [malloc] returns the (indeterminate) contents of the fresh
    block, or NULL. *)
Definition resp (c : call) : Type :=
  match c with
  | mtd_find_partition_by_name _ => ptr
  | mtd_partition_info _ _ => (Z * Z)%type
  | mtd_read_partition _ => ptr
  | mtd_read_data _ _ => (Z * list Z)%type
  | mtd_read_close _ => unit
  | mtd_write_partition _ => ptr
  | mtd_write_data _ _ _ => Z
  | mtd_erase_blocks _ _ => Z
  | mtd_find_write_start _ _ => Z
  | mtd_write_close _ => Z
  | malloc _ => option (list Z)
  | fopen _ _ => ptr
  | fseek _ _ _ => Z
  | fread _ _ _ => (Z * list Z)%type
  | fclose _ => Z
  end.

(** ** Log lines *)

Inductive log_arg : Type :=
| a_str (s : string)
| a_bytes (s : list Z)
| a_int (z : Z)
| a_errno.                      (* strerror(errno) *)

Inductive log_level : Type := E | I.

(** ** Programs *)

Inductive prog (A : Type) : Type :=
| Ret (a : A)
| Undef
| Log (lvl : log_level) (fmt : string) (args : list log_arg) (k : prog A)
| Do (c : call) (k : resp c -> prog A).

Arguments Ret {A} a.
Arguments Undef {A}.
Arguments Log {A} lvl fmt args k.
Arguments Do {A} c k.

Fixpoint bind {A B : Type} (p : prog A) (f : A -> prog B) : prog B :=
  match p with
  | Ret a => f a
  | Undef => Undef
  | Log lvl fmt args k => Log lvl fmt args (bind k f)
  | Do c k => Do c (fun r => bind (k r) f)
  end.

Declare Scope prog_scope.
Delimit Scope prog_scope with prog.
Notation "x <- c ;; k" := (Do c (fun x => k))
  (at level 61, c at next level, right associativity) : prog_scope.
Notation "' pat <- c ;; k" := (Do c (fun x => match x with pat => k end))
  (at level 61, pat pattern, c at next level, right associativity) : prog_scope.
Notation "'call_' c ;; k" := (Do c (fun _ => k))
  (at level 61, c at next level, right associativity) : prog_scope.
Notation "'LOGE' fmt args ;; k" := (Log E fmt args k)
  (at level 61, fmt at level 0, args at level 0, right associativity) : prog_scope.
Notation "'LOGI' fmt args ;; k" := (Log I fmt args k)
  (at level 61, fmt at level 0, args at level 0, right associativity) : prog_scope.

(** ** Running a program *)

Inductive event : Type :=
| Called (c : call) (r : resp c)
| Logged (lvl : log_level) (fmt : string) (args : list log_arg).

Inductive outcome (A : Type) : Type :=
| Done (a : A)
| Undefined.

Arguments Done {A} a.
Arguments Undefined {A}.

(** A handler answers every call and threads the state of the world. *)
Definition handler (W : Type) : Type := forall c : call, W -> resp c * W.

(** Prefix the trace of a run with one more event. *)
Definition note {W A : Type} (e : event) (x : outcome A * list event * W)
  : outcome A * list event * W :=
  let '(o, tr, w) := x in (o, e :: tr, w).

Fixpoint exec {W A : Type} (h : handler W) (p : prog A) (w : W)
  : outcome A * list event * W :=
  match p with
  | Ret a => (Done a, [], w)
  | Undef => (Undefined, [], w)
  | Log lvl fmt args k => note (Logged lvl fmt args) (exec h k w)
  | Do c k => let (r, w1) := h c w in note (Called c r) (exec h (k r) w1)
  end.

(** ** The boot control message *)

Definition dquote : string := String (Ascii.ascii_of_nat 34) EmptyString.

(** The format of the closing log line of [set_bootloader_message]; the
    two quotes inside it are escaped in the C source. *)
Definition set_boot_command_format : string :=
  ("Set boot command " ++ dquote ++ "%s" ++ dquote ++ "\n")%string.

Section BootMessage.
Context {cfg : Config}.
Local Open Scope prog_scope.

Definition get_bootloader_message (out : bootloader_message)
  : prog (Z * bootloader_message) :=
  let not_found := LOGE "Can't find %s\n" [a_str MISC_NAME] ;; Ret (-1, out) in
  part <- mtd_find_partition_by_name MISC_NAME ;;
  match part with
  | None => not_found
  | Some _ =>
  '(rc, write_size) <- mtd_partition_info part write_size_field ;;
  if negb (rc =? 0) then not_found else
  read <- mtd_read_partition part ;;
  match read with
  | None => LOGE "Can't open %s\n(%s)\n" [a_str MISC_NAME; a_errno] ;; Ret (-1, out)
  | Some _ =>
  let size := to_signed (write_size * MISC_PAGES) in
  if size <? 0 then Undef else                       (* char data[size] *)
  '(r, bytes) <- mtd_read_data read (to_unsigned size) ;;
  let data := fit size bytes in
  let close_and k := call_ mtd_read_close read ;; k in
  if negb (r =? size) then
    LOGE "Can't read %s\n(%s)\n" [a_str MISC_NAME; a_errno] ;;
    close_and (Ret (-1, out))
  else
  close_and
  match memcpy_from data (to_unsigned (write_size * MISC_COMMAND_PAGE))
                    sizeof_bootloader_message with
  | None => Undef
  | Some out' => Ret (0, out')
  end
  end
  end.

Definition set_bootloader_message (in_ : bootloader_message) : prog Z :=
  let not_found := LOGE "Can't find %s\n" [a_str MISC_NAME] ;; Ret (-1) in
  part <- mtd_find_partition_by_name MISC_NAME ;;
  match part with
  | None => not_found
  | Some _ =>
  '(rc, write_size) <- mtd_partition_info part write_size_field ;;
  if negb (rc =? 0) then not_found else
  read <- mtd_read_partition part ;;
  match read with
  | None => LOGE "Can't open %s\n(%s)\n" [a_str MISC_NAME; a_errno] ;; Ret (-1)
  | Some _ =>
  let size := to_signed (write_size * MISC_PAGES) in
  if size <? 0 then Undef else                       (* char data[size] *)
  '(r, bytes) <- mtd_read_data read (to_unsigned size) ;;
  let data := fit size bytes in
  let close_and k := call_ mtd_read_close read ;; k in
  if negb (r =? size) then
    LOGE "Can't read %s\n(%s)\n" [a_str MISC_NAME; a_errno] ;;
    close_and (Ret (-1))
  else
  close_and
  match memcpy_to data (to_unsigned (write_size * MISC_COMMAND_PAGE))
                  (fit sizeof_bootloader_message in_) with
  | None => Undef
  | Some data' =>
  write <- mtd_write_partition part ;;
  match write with
  | None => LOGE "Can't open %s\n(%s)\n" [a_str MISC_NAME; a_errno] ;; Ret (-1)
  | Some _ =>
  w <- mtd_write_data write (Some data') (to_unsigned size) ;;
  if negb (w =? size) then
    LOGE "Can't write %s\n(%s)\n" [a_str MISC_NAME; a_errno] ;;
    call_ mtd_write_close write ;;
    Ret (-1)
  else
  c <- mtd_write_close write ;;
  if negb (c =? 0) then
    LOGE "Can't finish %s\n(%s)\n" [a_str MISC_NAME; a_errno] ;; Ret (-1)
  else
  let command := skipn (Z.to_nat command_offset) (fit sizeof_bootloader_message in_) in
  match (if negb (nth 0 command 0 =? 255) then cstring command else Some []) with
  | None => Undef                                    (* unterminated %s *)
  | Some s =>
  LOGI set_boot_command_format [a_bytes s] ;; Ret 0
  end
  end
  end
  end
  end.

End BootMessage.

(** ** The update image *)

Record update_header : Type := mk_header {
  MAGIC : list Z;               (* unsigned char MAGIC[UPDATE_MAGIC_SIZE] *)
  version : Z;
  size : Z;
  image_offset : Z;
  image_length : Z;
  bitmap_width : Z;
  bitmap_height : Z;
  bitmap_bpp : Z;
  busy_bitmap_offset : Z;
  busy_bitmap_length : Z;
  fail_bitmap_offset : Z;
  fail_bitmap_length : Z
}.

(** Assignments to one field; every [unsigned] field stores its value
    converted to [unsigned]. *)
Definition set_MAGIC (v : list Z) (h : update_header) : update_header :=
  mk_header v (version h) (size h) (image_offset h) (image_length h)
    (bitmap_width h) (bitmap_height h) (bitmap_bpp h) (busy_bitmap_offset h)
    (busy_bitmap_length h) (fail_bitmap_offset h) (fail_bitmap_length h).
Definition set_version (v : Z) (h : update_header) : update_header :=
  mk_header (MAGIC h) (to_unsigned v) (size h) (image_offset h) (image_length h)
    (bitmap_width h) (bitmap_height h) (bitmap_bpp h) (busy_bitmap_offset h)
    (busy_bitmap_length h) (fail_bitmap_offset h) (fail_bitmap_length h).
Definition set_size (v : Z) (h : update_header) : update_header :=
  mk_header (MAGIC h) (version h) (to_unsigned v) (image_offset h) (image_length h)
    (bitmap_width h) (bitmap_height h) (bitmap_bpp h) (busy_bitmap_offset h)
    (busy_bitmap_length h) (fail_bitmap_offset h) (fail_bitmap_length h).
Definition set_image_offset (v : Z) (h : update_header) : update_header :=
  mk_header (MAGIC h) (version h) (size h) (to_unsigned v) (image_length h)
    (bitmap_width h) (bitmap_height h) (bitmap_bpp h) (busy_bitmap_offset h)
    (busy_bitmap_length h) (fail_bitmap_offset h) (fail_bitmap_length h).
Definition set_image_length (v : Z) (h : update_header) : update_header :=
  mk_header (MAGIC h) (version h) (size h) (image_offset h) (to_unsigned v)
    (bitmap_width h) (bitmap_height h) (bitmap_bpp h) (busy_bitmap_offset h)
    (busy_bitmap_length h) (fail_bitmap_offset h) (fail_bitmap_length h).
Definition set_bitmap_width (v : Z) (h : update_header) : update_header :=
  mk_header (MAGIC h) (version h) (size h) (image_offset h) (image_length h)
    (to_unsigned v) (bitmap_height h) (bitmap_bpp h) (busy_bitmap_offset h)
    (busy_bitmap_length h) (fail_bitmap_offset h) (fail_bitmap_length h).
Definition set_bitmap_height (v : Z) (h : update_header) : update_header :=
  mk_header (MAGIC h) (version h) (size h) (image_offset h) (image_length h)
    (bitmap_width h) (to_unsigned v) (bitmap_bpp h) (busy_bitmap_offset h)
    (busy_bitmap_length h) (fail_bitmap_offset h) (fail_bitmap_length h).
Definition set_bitmap_bpp (v : Z) (h : update_header) : update_header :=
  mk_header (MAGIC h) (version h) (size h) (image_offset h) (image_length h)
    (bitmap_width h) (bitmap_height h) (to_unsigned v) (busy_bitmap_offset h)
    (busy_bitmap_length h) (fail_bitmap_offset h) (fail_bitmap_length h).
Definition set_busy_bitmap_offset (v : Z) (h : update_header) : update_header :=
  mk_header (MAGIC h) (version h) (size h) (image_offset h) (image_length h)
    (bitmap_width h) (bitmap_height h) (bitmap_bpp h) (to_unsigned v)
    (busy_bitmap_length h) (fail_bitmap_offset h) (fail_bitmap_length h).
Definition set_busy_bitmap_length (v : Z) (h : update_header) : update_header :=
  mk_header (MAGIC h) (version h) (size h) (image_offset h) (image_length h)
    (bitmap_width h) (bitmap_height h) (bitmap_bpp h) (busy_bitmap_offset h)
    (to_unsigned v) (fail_bitmap_offset h) (fail_bitmap_length h).
Definition set_fail_bitmap_offset (v : Z) (h : update_header) : update_header :=
  mk_header (MAGIC h) (version h) (size h) (image_offset h) (image_length h)
    (bitmap_width h) (bitmap_height h) (bitmap_bpp h) (busy_bitmap_offset h)
    (busy_bitmap_length h) (to_unsigned v) (fail_bitmap_length h).
Definition set_fail_bitmap_length (v : Z) (h : update_header) : update_header :=
  mk_header (MAGIC h) (version h) (size h) (image_offset h) (image_length h)
    (bitmap_width h) (bitmap_height h) (bitmap_bpp h) (busy_bitmap_offset h)
    (busy_bitmap_length h) (fail_bitmap_offset h) (to_unsigned v).

(** A conditional block of a function body: [body] receives the rest of
    the function, so that it can fall through to it or return early. *)
Definition when_ {A : Type} (b : bool) (body : prog A -> prog A) (k : prog A) : prog A :=
  if b then body k else k.

Definition is_null {A : Type} (p : option A) : bool :=
  match p with None => true | Some _ => false end.

Section UpdateImage.
Context {cfg : Config}.
Local Open Scope prog_scope.

Definition UPDATE_MAGIC_SIZE : Z := Z.of_nat (length UPDATE_MAGIC).
Definition LOG_MAGIC_SIZE : Z := Z.of_nat (length LOG_MAGIC).

(** Bytes between [MAGIC] and [version], which is 4-aligned. *)
Definition magic_padding : Z := (4 - UPDATE_MAGIC_SIZE mod 4) mod 4.

(** [sizeof(struct update_header)] *)
Definition header_size : Z := UPDATE_MAGIC_SIZE + magic_padding + 44.

(** The object representation [(char* ) &header]. *)
Definition header_bytes (h : update_header) : list Z :=
  fit UPDATE_MAGIC_SIZE (MAGIC h) ++ zeros magic_padding
  ++ le32 (version h) ++ le32 (size h)
  ++ le32 (image_offset h) ++ le32 (image_length h)
  ++ le32 (bitmap_width h) ++ le32 (bitmap_height h) ++ le32 (bitmap_bpp h)
  ++ le32 (busy_bitmap_offset h) ++ le32 (busy_bitmap_length h)
  ++ le32 (fail_bitmap_offset h) ++ le32 (fail_bitmap_length h).

(** [memset(&header, 0, sizeof(header))] *)
Definition zero_header : update_header :=
  mk_header (zeros UPDATE_MAGIC_SIZE) 0 0 0 0 0 0 0 0 0 0 0.

(** The least integer that is no less than [a / b]. *)
Definition ceil_div (a b : Z) : Z := - ((- a) / b).

(** [(bitmap_bpp + 7) / 8 * bitmap_width * bitmap_height] in [int]
    arithmetic; C's [/] truncates towards zero. *)
Definition bitmap_length_of (bitmap_bpp bitmap_width bitmap_height : Z) : Z :=
  to_signed (to_signed (Z.quot (to_signed (bitmap_bpp + 7)) 8 * bitmap_width)
             * bitmap_height).

Definition write_update_for_bootloader
    (update : option (list Z)) (update_length : Z)
    (bitmap_width bitmap_height bitmap_bpp : Z)
    (busy_bitmap fail_bitmap : option (list Z))
    (log_filename : option string) : prog Z :=
  part <- mtd_find_partition_by_name CACHE_NAME ;;
  if is_null part then
    LOGE "Can't find %s\n" [a_str CACHE_NAME] ;; Ret (-1)
  else
  write <- mtd_write_partition part ;;
  if is_null write then
    LOGE "Can't open %s\n(%s)\n" [a_str CACHE_NAME; a_errno] ;; Ret (-1)
  else
  (* Write an invalid (zero) header first *)
  let header := zero_header in
  w <- mtd_write_data write (Some (header_bytes header)) (to_unsigned header_size) ;;
  if negb (w =? header_size) then
    LOGE "Can't write header to %s\n(%s)\n" [a_str CACHE_NAME; a_errno] ;;
    call_ mtd_write_close write ;;
    Ret (-1)
  else
  let header := set_MAGIC UPDATE_MAGIC header in
  let header := set_version UPDATE_VERSION header in
  let header := set_size header_size header in
  when_ (negb (is_null log_filename)) (fun continue =>
    call_ mtd_erase_blocks write 0 ;;
    w <- mtd_write_data write (Some (header_bytes header)) 1 ;;
    if negb (w =? 1) then
      LOGE "Can't write log block to %s\n(%s)\n" [a_str CACHE_NAME; a_errno] ;;
      call_ mtd_write_close write ;;
      Ret (-1)
    else continue)
  (image_start_pos <- mtd_erase_blocks write 0 ;;
  let header := set_image_length update_length header in
  if to_signed (image_offset header) =? -1 then
    LOGE "Can't write update to %s\n(%s)\n" [a_str CACHE_NAME; a_errno] ;;
    call_ mtd_write_close write ;;
    Ret (-1)
  else
  w <- mtd_write_data write update (to_unsigned update_length) ;;
  if negb (w =? update_length) then
    LOGE "Can't write update to %s\n(%s)\n" [a_str CACHE_NAME; a_errno] ;;
    call_ mtd_write_close write ;;
    Ret (-1)
  else
  busy_start_pos <- mtd_erase_blocks write 0 ;;
  p <- mtd_find_write_start write image_start_pos ;;
  let header := set_image_offset p header in
  let header := set_bitmap_width bitmap_width header in
  let header := set_bitmap_height bitmap_height header in
  let header := set_bitmap_bpp bitmap_bpp header in
  let bitmap_length := bitmap_length_of bitmap_bpp bitmap_width bitmap_height in
  LOGE "writing busy bitmap\n" [] ;;
  let header :=
    set_busy_bitmap_length (if is_null busy_bitmap then 0 else bitmap_length) header in
  if to_signed (busy_bitmap_offset header) =? -1 then
    LOGE "Can't write bitmap to %s\n(%s)\n" [a_str CACHE_NAME; a_errno] ;;
    call_ mtd_write_close write ;;
    Ret (-1)
  else
  w <- mtd_write_data write busy_bitmap (to_unsigned bitmap_length) ;;
  if negb (w =? bitmap_length) then
    LOGE "Can't write bitmap to %s\n(%s)\n" [a_str CACHE_NAME; a_errno] ;;
    call_ mtd_write_close write ;;
    Ret (-1)
  else
  LOGE "busy bitmap written\n" [] ;;
  fail_start_pos <- mtd_erase_blocks write 0 ;;
  LOGE "block padded\n" [] ;;
  p <- mtd_find_write_start write busy_start_pos ;;
  let header := set_busy_bitmap_offset p header in
  let header :=
    set_fail_bitmap_length (if is_null fail_bitmap then 0 else bitmap_length) header in
  if to_signed (fail_bitmap_offset header) =? -1 then
    LOGE "Can't write bitmap to %s\n(%s)\n" [a_str CACHE_NAME; a_errno] ;;
    call_ mtd_write_close write ;;
    Ret (-1)
  else
  w <- mtd_write_data write fail_bitmap (to_unsigned bitmap_length) ;;
  if negb (w =? bitmap_length) then
    LOGE "Can't write bitmap to %s\n(%s)\n" [a_str CACHE_NAME; a_errno] ;;
    call_ mtd_write_close write ;;
    Ret (-1)
  else
  LOGE "finishing block\n" [] ;;
  call_ mtd_erase_blocks write 0 ;;
  LOGE "finished block\n" [] ;;
  p <- mtd_find_write_start write fail_start_pos ;;
  let header := set_fail_bitmap_offset p header in
  (* Write the header last, after all the blocks it refers to *)
  c <- mtd_write_close write ;;
  if negb (c =? 0) then
    LOGE "Can't finish writing %s\n(%s)\n" [a_str CACHE_NAME; a_errno] ;; Ret (-1)
  else
  write <- mtd_write_partition part ;;
  if is_null write then
    LOGE "Can't reopen %s\n(%s)\n" [a_str CACHE_NAME; a_errno] ;; Ret (-1)
  else
  w <- mtd_write_data write (Some (header_bytes header)) (to_unsigned header_size) ;;
  if negb (w =? header_size) then
    LOGE "Can't rewrite header to %s\n(%s)\n" [a_str CACHE_NAME; a_errno] ;;
    call_ mtd_write_close write ;;
    Ret (-1)
  else
  when_ (negb (is_null log_filename)) (fun continue =>
    LOGE "writing log\n" [] ;;
    '(rc, erase_size) <- mtd_partition_info part erase_size_field ;;
    if negb (rc =? 0) then
      LOGE "Error reading block size\n(%s)\n" [a_errno] ;;
      call_ mtd_write_close write ;;
      Ret (-1)
    else
    call_ mtd_erase_blocks write 0 ;;
    when_ (0 <? erase_size) (fun continue =>
      log <- malloc erase_size ;;
      f <- fopen (match log_filename with Some n => n | None => EmptyString end) "rb" ;;
      call_ fseek f (to_signed (- (erase_size - sizeof_size_t - LOG_MAGIC_SIZE))) SEEK_END ;;
      match log with
      | None => Undef                                (* memcpy(NULL, ...) *)
      | Some block =>
      match memcpy_to (fit erase_size block) 0 LOG_MAGIC with
      | None => Undef
      | Some log =>
      let count := to_unsigned (erase_size - sizeof_size_t - LOG_MAGIC_SIZE) in
      '(read, bytes) <- fread f 1 count ;;
      match memcpy_to log (sizeof_size_t + LOG_MAGIC_SIZE) (fit read bytes) with
      | None => Undef
      | Some log =>
      LOGI "read %d bytes from log\n" [a_int (to_signed read)] ;;
      match memcpy_to log LOG_MAGIC_SIZE (le32 read) with
      | None => Undef
      | Some log =>
      call_ fclose f ;;
      w <- mtd_write_data write (Some log) erase_size ;;
      if negb (to_unsigned w =? erase_size) then
        LOGE "failed to store log in cache partition\n(%s)\n" [a_errno] ;;
        call_ mtd_write_close write ;;
        continue
      else continue
      end
      end
      end
      end)
    continue)
  (pos <- mtd_erase_blocks write 0 ;;
  if negb (pos =? image_start_pos) then
    LOGE "Misalignment rewriting %s\n(%s)\n" [a_str CACHE_NAME; a_errno] ;;
    call_ mtd_write_close write ;;
    Ret (-1)
  else
  LOGE "closing partition\n" [] ;;
  c <- mtd_write_close write ;;
  if negb (c =? 0) then
    LOGE "Can't finish header of %s\n(%s)\n" [a_str CACHE_NAME; a_errno] ;; Ret (-1)
  else
  Ret 0)).

End UpdateImage.

(** ** A simulated device

    The partition primitives, the C library and the two partitions are
    collaborators of the code above.  [Sim] is a small executable stand-in
    for them, used to run the embedded functions on concrete inputs: two
    flash partitions with defective blocks that sequential access skips,
    one read and one write session, a file system holding the log, and a
    fault plan that makes chosen calls fail. *)

Module Sim.

Record flash : Type := mk_flash {
  page : Z;                     (* write (page) size *)
  block : Z;                    (* erase block size *)
  bad : list Z;                 (* indices of defective blocks *)
  cells : list Z                (* contents *)
}.

Record world : Type := mk_world {
  misc : option flash;
  cache : option flash;
  reading : option (nat * Z);   (* open read session: partition, position *)
  writing : option (nat * Z);   (* open write session: partition, position *)
  files : list (string * list Z);
  stream : option (list Z * Z); (* open FILE: contents, position *)
  clock : nat;                  (* number of calls answered so far *)
  faults : list nat             (* calls, by number, that are made to fail *)
}.

Definition misc_name : string := "misc".
Definition cache_name : string := "cache".

Definition partition (w : world) (p : nat) : option flash :=
  match p with
  | O => misc w
  | S O => cache w
  | _ => None
  end.

Definition with_partition (p : nat) (f : flash) (w : world) : world :=
  match p with
  | O => mk_world (Some f) (cache w) (reading w) (writing w) (files w) (stream w)
           (clock w) (faults w)
  | _ => mk_world (misc w) (Some f) (reading w) (writing w) (files w) (stream w)
           (clock w) (faults w)
  end.

Definition with_reading (r : option (nat * Z)) (w : world) : world :=
  mk_world (misc w) (cache w) r (writing w) (files w) (stream w) (clock w) (faults w).

Definition with_writing (s : option (nat * Z)) (w : world) : world :=
  mk_world (misc w) (cache w) (reading w) s (files w) (stream w) (clock w) (faults w).

Definition with_stream (s : option (list Z * Z)) (w : world) : world :=
  mk_world (misc w) (cache w) (reading w) (writing w) (files w) s (clock w) (faults w).

Definition tick (w : world) : world :=
  mk_world (misc w) (cache w) (reading w) (writing w) (files w) (stream w)
    (S (clock w)) (faults w).

Definition faulty (w : world) : bool := existsb (Nat.eqb (clock w)) (faults w).

Definition is_bad (f : flash) (pos : Z) : bool :=
  existsb (Z.eqb (pos / block f)) (bad f).

(** The start of the first usable block at or after the block-aligned
    position [pos]. *)
Fixpoint skip_bad (fuel : nat) (f : flash) (pos : Z) : Z :=
  match fuel with
  | O => pos
  | S fuel' => if is_bad f pos then skip_bad fuel' f (pos + block f) else pos
  end.

Definition blocks_of (f : flash) : nat := Z.to_nat (Z.of_nat (length (cells f)) / block f).

(** Where the byte at stream position [pos] goes: defective blocks are
    passed over on entering them. *)
Definition settle (f : flash) (pos : Z) : Z :=
  if (0 <? block f) && (pos mod block f =? 0) then skip_bad (blocks_of f) f pos else pos.

Definition poke (l : list Z) (i : Z) (b : Z) : list Z :=
  firstn (Z.to_nat i) l ++ b :: skipn (S (Z.to_nat i)) l.

(** Sequential write of [data] from [pos]; returns the flash, the new
    position and the number of bytes stored. *)
Fixpoint put (f : flash) (pos : Z) (data : list Z) : flash * Z * Z :=
  match data with
  | [] => (f, pos, 0)
  | b :: data' =>
      let at_ := settle f pos in
      if at_ <? Z.of_nat (length (cells f)) then
        let '(f', pos', n) :=
          put (mk_flash (page f) (block f) (bad f) (poke (cells f) at_ b)) (at_ + 1) data' in
        (f', pos', n + 1)
      else (f, at_, 0)
  end.

(** Sequential read of up to [n] bytes from [pos]. *)
Fixpoint get (f : flash) (pos : Z) (n : nat) : list Z * Z :=
  match n with
  | O => ([], pos)
  | S n' =>
      let at_ := settle f pos in
      if at_ <? Z.of_nat (length (cells f)) then
        let (l, pos') := get f (at_ + 1) n' in
        (nth (Z.to_nat at_) (cells f) 0 :: l, pos')
      else ([], at_)
  end.

Definition round_up (f : flash) (pos : Z) : Z :=
  if 0 <? block f then (pos + block f - 1) / block f * block f else pos.

Definition lookup_file (name : string) (w : world) : option (list Z) :=
  match find (fun e => String.eqb (fst e) name) (files w) with
  | Some e => Some (snd e)
  | None => None
  end.

Definition read_ctx : ptr := Some 10%nat.
Definition write_ctx : ptr := Some 20%nat.
Definition file_ptr : ptr := Some 30%nat.

Definition same (p q : ptr) : bool :=
  match p, q with
  | Some a, Some b => Nat.eqb a b
  | _, _ => false
  end.

(** The answer to a call that is made to fail. *)
Definition failure (c : call) : resp c :=
  match c with
  | mtd_find_partition_by_name _ => None
  | mtd_partition_info _ _ => (-1, 0)
  | mtd_read_partition _ => None
  | mtd_read_data _ _ => (-1, [])
  | mtd_read_close _ => tt
  | mtd_write_partition _ => None
  | mtd_write_data _ _ _ => -1
  | mtd_erase_blocks _ _ => -1
  | mtd_find_write_start _ _ => -1
  | mtd_write_close _ => -1
  | malloc _ => None
  | fopen _ _ => None
  | fseek _ _ _ => -1
  | fread _ _ _ => (0, [])
  | fclose _ => -1
  end.

(** The answer of a healthy device. *)
Definition answer (c : call) (w : world) : resp c * world :=
  match c as c0 return resp c0 * world with
  | mtd_find_partition_by_name name =>
      if String.eqb name misc_name
      then (if is_null (misc w) then None else Some 0%nat, w)
      else if String.eqb name cache_name
      then (if is_null (cache w) then None else Some 1%nat, w)
      else (None, w)
  | mtd_partition_info part want =>
      match part with
      | Some p =>
          match partition w p with
          | Some f => ((0, match want with
                           | erase_size_field => block f
                           | write_size_field => page f
                           end), w)
          | None => ((-1, 0), w)
          end
      | None => ((-1, 0), w)
      end
  | mtd_read_partition part =>
      match part with
      | Some p => if is_null (partition w p) then (None, w)
                  else (read_ctx, with_reading (Some (p, 0)) w)
      | None => (None, w)
      end
  | mtd_read_data ctx len =>
      match reading w with
      | Some (p, pos) =>
          match partition w p with
          | Some f =>
              if same ctx read_ctx then
                let (l, pos') := get f pos (Z.to_nat len) in
                ((Z.of_nat (length l), l), with_reading (Some (p, pos')) w)
              else ((-1, []), w)
          | None => ((-1, []), w)
          end
      | None => ((-1, []), w)
      end
  | mtd_read_close ctx =>
      (tt, if same ctx read_ctx then with_reading None w else w)
  | mtd_write_partition part =>
      match part with
      | Some p => if is_null (partition w p) then (None, w)
                  else (write_ctx, with_writing (Some (p, 0)) w)
      | None => (None, w)
      end
  | mtd_write_data ctx data len =>
      match writing w, data with
      | Some (p, pos), Some d =>
          match partition w p with
          | Some f =>
              if same ctx write_ctx then
                let '(f', pos', n) := put f pos (firstn (Z.to_nat len) d) in
                (n, with_writing (Some (p, pos')) (with_partition p f' w))
              else (-1, w)
          | None => (-1, w)
          end
      | Some _, None => (if same ctx write_ctx && (len =? 0) then 0 else -1, w)
      | None, _ => (-1, w)
      end
  | mtd_erase_blocks ctx blocks =>
      match writing w with
      | Some (p, pos) =>
          match partition w p with
          | Some f =>
              if same ctx write_ctx then
                let pos' := round_up f pos + blocks * block f in
                (pos', with_writing (Some (p, pos')) w)
              else (-1, w)
          | None => (-1, w)
          end
      | None => (-1, w)
      end
  | mtd_find_write_start ctx pos =>
      match writing w with
      | Some (p, _) =>
          match partition w p with
          | Some f => if same ctx write_ctx then (settle f pos, w) else (-1, w)
          | None => (-1, w)
          end
      | None => (-1, w)
      end
  | mtd_write_close ctx =>
      match writing w with
      | Some _ => if same ctx write_ctx then (0, with_writing None w) else (-1, w)
      | None => (-1, w)
      end
  | malloc n => (Some (repeat 170 (Z.to_nat n)), w)
  | fopen name mode =>
      match lookup_file name w with
      | Some l => (file_ptr, with_stream (Some (l, 0)) w)
      | None => (None, w)
      end
  | fseek f off wh =>
      match stream w with
      | Some (l, _) =>
          let target := Z.of_nat (length l) + off in
          if same f file_ptr && (0 <=? target)
          then (0, with_stream (Some (l, target)) w)
          else (-1, w)
      | None => (-1, w)
      end
  | fread f size count =>
      match stream w with
      | Some (l, pos) =>
          if same f file_ptr then
            let got := firstn (Z.to_nat (size * count)) (skipn (Z.to_nat pos) l) in
            ((Z.of_nat (length got), got),
             with_stream (Some (l, pos + Z.of_nat (length got))) w)
          else ((0, []), w)
      | None => ((0, []), w)
      end
  | fclose f =>
      match stream w with
      | Some _ => if same f file_ptr then (0, with_stream None w) else (-1, w)
      | None => (-1, w)
      end
  end.

(** The device: a call whose number is in the fault plan fails and has
    no effect. *)
Definition device : handler world :=
  fun c w =>
    if faulty w then (failure c, tick w)
    else let (r, w') := answer c w in (r, tick w').

Definition sample_config : Config := {|
  MISC_NAME := misc_name;
  CACHE_NAME := cache_name;
  UPDATE_MAGIC := [77; 83; 77; 45; 82; 65; 68; 73; 79; 45; 85; 80; 68; 65; 84; 69];
  UPDATE_VERSION := 65536;
  LOG_MAGIC := [76; 79; 71; 109; 97; 103; 105; 99];
  sizeof_bootloader_message := 48;
  command_offset := 0
|}.

(** A blank partition of [n] blocks. *)
Definition blank (page_size block_size : Z) (n : nat) (bad_blocks : list Z) : flash :=
  mk_flash page_size block_size bad_blocks (repeat 255 (n * Z.to_nat block_size)).

Definition boot (m c : option flash) (fs : list (string * list Z)) (plan : list nat)
  : world :=
  mk_world m c None None fs None 0 plan.

(** The magic field of the header stored at the start of the cache
    partition. *)
Definition stored_magic (w : world) : list Z :=
  match cache w with
  | Some f => firstn (length (@UPDATE_MAGIC sample_config)) (cells f)
  | None => []
  end.

End Sim.

(** ** Reading traces *)

(** The [mtd_read_data] calls of a trace: context, requested length,
    returned count and bytes. *)
Fixpoint reads_of (tr : list event) : list (ptr * Z * (Z * list Z)) :=
  match tr with
  | [] => []
  | Called c r :: tr' =>
      match c as c0 return resp c0 -> list (ptr * Z * (Z * list Z)) with
      | mtd_read_data ctx len => fun r => [(ctx, len, r)]
      | _ => fun _ => []
      end r ++ reads_of tr'
  | _ :: tr' => reads_of tr'
  end.

(** The [mtd_partition_info] calls: partition, requested field, status
    and value. *)
Fixpoint infos_of (tr : list event) : list (ptr * info_field * (Z * Z)) :=
  match tr with
  | [] => []
  | Called c r :: tr' =>
      match c as c0 return resp c0 -> list (ptr * info_field * (Z * Z)) with
      | mtd_partition_info part want => fun r => [(part, want, r)]
      | _ => fun _ => []
      end r ++ infos_of tr'
  | _ :: tr' => infos_of tr'
  end.

(** The [mtd_write_data] calls: context, buffer, length and result. *)
Fixpoint writes_of (tr : list event) : list (ptr * option (list Z) * Z * Z) :=
  match tr with
  | [] => []
  | Called c r :: tr' =>
      match c as c0 return resp c0 -> list (ptr * option (list Z) * Z * Z) with
      | mtd_write_data ctx data len => fun r => [(ctx, data, len, r)]
      | _ => fun _ => []
      end r ++ writes_of tr'
  | _ :: tr' => writes_of tr'
  end.

(** The log lines of a trace. *)
Fixpoint logs_of (tr : list event) : list (log_level * string * list log_arg) :=
  match tr with
  | [] => []
  | Logged lvl fmt args :: tr' => (lvl, fmt, args) :: logs_of tr'
  | _ :: tr' => logs_of tr'
  end.

(** The calls of a trace, without their answers and without the log
    lines. *)
Fixpoint calls_of (tr : list event) : list call :=
  match tr with
  | [] => []
  | Called c _ :: tr' => c :: calls_of tr'
  | _ :: tr' => calls_of tr'
  end.

(** The [mtd_erase_blocks] calls: context, block count and result. *)
Fixpoint erases_of (tr : list event) : list (ptr * Z * Z) :=
  match tr with
  | [] => []
  | Called c r :: tr' =>
      match c as c0 return resp c0 -> list (ptr * Z * Z) with
      | mtd_erase_blocks ctx blocks => fun r => [(ctx, blocks, r)]
      | _ => fun _ => []
      end r ++ erases_of tr'
  | _ :: tr' => erases_of tr'
  end.

(** The [mtd_write_close] calls: context and result. *)
Fixpoint closes_of (tr : list event) : list (ptr * Z) :=
  match tr with
  | [] => []
  | Called c r :: tr' =>
      match c as c0 return resp c0 -> list (ptr * Z) with
      | mtd_write_close ctx => fun r => [(ctx, r)]
      | _ => fun _ => []
      end r ++ closes_of tr'
  | _ :: tr' => closes_of tr'
  end.

(** The calls on the log file, with their answers. *)
Fixpoint stdio_of (tr : list event) : list event :=
  match tr with
  | [] => []
  | Called c r :: tr' =>
      match c with
      | fopen _ _ | fseek _ _ _ | fread _ _ _ | fclose _ => [Called c r]
      | _ => []
      end ++ stdio_of tr'
  | _ :: tr' => stdio_of tr'
  end.

(** A trace cut at its [mtd_write_partition] calls: the events before
    the first of them, and the events of each write session. *)
Fixpoint split_sessions (tr : list event) : list event * list (list event) :=
  match tr with
  | [] => ([], [])
  | e :: tr' =>
      let (cur, ss) := split_sessions tr' in
      match e with
      | Called (mtd_write_partition _) _ => ([], cur :: ss)
      | _ => (e :: cur, ss)
      end
  end.

Definition sessions_of (tr : list event) : list (list event) :=
  snd (split_sessions tr).

(** [starts_with pat tr]: [tr] begins with the events [pat]. *)
Fixpoint starts_with (pat tr : list event) : Prop :=
  match pat, tr with
  | [], _ => True
  | p :: pat', e :: tr' => p = e /\ starts_with pat' tr'
  | _ :: _, [] => False
  end.

(** [occurs_then pat K tr]: the events [pat] occur next to each other
    somewhere in [tr], and what follows them satisfies [K]. *)
Fixpoint occurs_then (pat : list event) (K : list event -> Prop) (tr : list event)
  : Prop :=
  (starts_with pat tr /\ K (skipn (length pat) tr))
  \/ match tr with
     | [] => False
     | _ :: tr' => occurs_then pat K tr'
     end.

Definition ends (tr : list event) : Prop := tr = [].

(** Page [i] of a region made of pages of [write_size] bytes. *)
Definition page_of (write_size i : Z) (buf : list Z) : list Z :=
  firstn (Z.to_nat write_size) (skipn (Z.to_nat (i * write_size)) buf).

(** The page size a run was told, the region its read filled, and the
    region it wrote. *)
Definition page_size_in (tr : list event) : option Z :=
  match infos_of tr with
  | (_, write_size_field, (Z0, write_size)) :: _ => Some write_size
  | _ => None
  end.

Definition region_read (tr : list event) : option (list Z) :=
  match reads_of tr with
  | (_, len, (_, bytes)) :: _ => Some (fit len bytes)
  | _ => None
  end.

Definition region_written (tr : list event) : option (list Z) :=
  match writes_of tr with
  | (_, Some data, _, _) :: _ => Some data
  | _ => None
  end.

(** The storage contract between a run that writes the region and a
    later run that reads it: the partition keeps its page size and the
    read returns the bytes that were written. *)
Definition reads_back (tr1 tr2 : list event) : Prop :=
  page_size_in tr2 = page_size_in tr1 /\ region_read tr2 = region_written tr1.

(** ** More ways to read a trace *)

(** The [mtd_write_partition] calls: partition and the session returned. *)
Fixpoint opens_of (tr : list event) : list (ptr * ptr) :=
  match tr with
  | [] => []
  | Called c r :: tr' =>
      match c as c0 return resp c0 -> list (ptr * ptr) with
      | mtd_write_partition part => fun r => [(part, r)]
      | _ => fun _ => []
      end r ++ opens_of tr'
  | _ :: tr' => opens_of tr'
  end.

(** The [mtd_read_partition] calls: partition and the session returned. *)
Fixpoint read_opens_of (tr : list event) : list (ptr * ptr) :=
  match tr with
  | [] => []
  | Called c r :: tr' =>
      match c as c0 return resp c0 -> list (ptr * ptr) with
      | mtd_read_partition part => fun r => [(part, r)]
      | _ => fun _ => []
      end r ++ read_opens_of tr'
  | _ :: tr' => read_opens_of tr'
  end.

(** The sessions handed to [mtd_read_close]. *)
Fixpoint read_closes_of (tr : list event) : list ptr :=
  match tr with
  | [] => []
  | Called (mtd_read_close ctx) _ :: tr' => ctx :: read_closes_of tr'
  | _ :: tr' => read_closes_of tr'
  end.

(** The [mtd_find_write_start] calls: session, position asked about and
    answer. *)
Fixpoint starts_of (tr : list event) : list (ptr * Z * Z) :=
  match tr with
  | [] => []
  | Called c r :: tr' =>
      match c as c0 return resp c0 -> list (ptr * Z * Z) with
      | mtd_find_write_start ctx pos => fun r => [(ctx, pos, r)]
      | _ => fun _ => []
      end r ++ starts_of tr'
  | _ :: tr' => starts_of tr'
  end.

(** The [fread] calls: stream, element size, element count, and the
    count and bytes returned. *)
Fixpoint freads_of (tr : list event) : list (ptr * Z * Z * (Z * list Z)) :=
  match tr with
  | [] => []
  | Called c r :: tr' =>
      match c as c0 return resp c0 -> list (ptr * Z * Z * (Z * list Z)) with
      | fread f size count => fun r => [(f, size, count, r)]
      | _ => fun _ => []
      end r ++ freads_of tr'
  | _ :: tr' => freads_of tr'
  end.

(** The non-NULL sessions among the answers of an open call. *)
Fixpoint opened (l : list (ptr * ptr)) : list ptr :=
  match l with
  | [] => []
  | (_, Some c) :: l' => Some c :: opened l'
  | (_, None) :: l' => opened l'
  end.

(** Calls that only look at a partition, and calls that touch the
    medium through a write session. *)
Definition read_side (c : call) : bool :=
  match c with
  | mtd_find_partition_by_name _ | mtd_partition_info _ _
  | mtd_read_partition _ | mtd_read_data _ _ | mtd_read_close _ => true
  | _ => false
  end.

Definition on_medium (c : call) : bool :=
  match c with
  | mtd_write_data _ _ _ | mtd_erase_blocks _ _ => true
  | _ => false
  end.


(** The partitions that the calls of a trace are made on, and the
    partitions looked up by name with the answers. *)
Fixpoint partitions_used (tr : list event) : list ptr :=
  match tr with
  | [] => []
  | Called (mtd_partition_info part _) _ :: tr' => part :: partitions_used tr'
  | Called (mtd_read_partition part) _ :: tr' => part :: partitions_used tr'
  | Called (mtd_write_partition part) _ :: tr' => part :: partitions_used tr'
  | _ :: tr' => partitions_used tr'
  end.

Fixpoint finds_of (tr : list event) : list (string * ptr) :=
  match tr with
  | [] => []
  | Called c r :: tr' =>
      match c as c0 return resp c0 -> list (string * ptr) with
      | mtd_find_partition_by_name name => fun r => [(name, r)]
      | _ => fun _ => []
      end r ++ finds_of tr'
  | _ :: tr' => finds_of tr'
  end.

(** Whether each [mtd_write_data] of a trace comes directly after the
    call that opened its session or after an erase-align
    ([mtd_erase_blocks] of 0 blocks) on its session, with no other write
    in between.  [fresh] is the session that may be written to next,
    [None] when there is none.  Only the order of the calls is looked
    at: an erase-align counts whatever it returned. *)
Fixpoint writes_follow_erase_align (fresh : ptr) (tr : list event) : bool :=
  match tr with
  | [] => true
  | Called c r :: tr' =>
      match c as c0 return resp c0 -> bool with
      | mtd_write_partition _ => fun r => writes_follow_erase_align r tr'
      | mtd_erase_blocks ctx n => fun _ =>
          writes_follow_erase_align (if n =? 0 then ctx else None) tr'
      | mtd_write_data ctx _ _ => fun _ =>
          Sim.same ctx fresh && writes_follow_erase_align None tr'
      | _ => fun _ => writes_follow_erase_align fresh tr'
      end r
  | _ :: tr' => writes_follow_erase_align fresh tr'
  end.

(** A write that returned the length it was asked to write. *)
Definition taken_in_full (wr : ptr * option (list Z) * Z * Z) : Prop :=
  let '(_, _, len, r) := wr in r = len.

(** ** The hex dump of the verbose build *)

Inductive printed : Type := printf (fmt : string) (args : list Z).

(** The inner loop of [dump_data], entered after its [++pos]:
    [for (; pos < len && (pos % 24) != 0; ++pos) printf(" %02x", data[pos]);]
    The result holds what was printed and the final [pos]; reading
    outside [data] is undefined; [None] when the fuel runs out. *)
Fixpoint dump_row (fuel : nat) (data : list Z) (len pos : Z)
  : option (outcome (list printed * Z)) :=
  match fuel with
  | O => None
  | S fuel' =>
      if (pos <? len) && negb (Z.rem pos 24 =? 0) then
        match nth_error data (Z.to_nat pos) with
        | None => Some Undefined
        | Some b =>
            match dump_row fuel' data len (pos + 1) with
            | Some (Done (out, pos')) => Some (Done (printf " %02x" [b] :: out, pos'))
            | Some Undefined => Some Undefined
            | None => None
            end
        end
      else Some (Done ([], pos))
  end.

(** The outer loop: [for (pos = 0; pos < len; ) { ... }]. *)
Fixpoint dump_rows (fuel : nat) (data : list Z) (len pos : Z)
  : option (outcome (list printed)) :=
  match fuel with
  | O => None
  | S fuel' =>
      if pos <? len then
        match nth_error data (Z.to_nat pos) with
        | None => Some Undefined
        | Some b =>
            match dump_row fuel data len (pos + 1) with
            | Some (Done (row, pos')) =>
                match dump_rows fuel' data len pos' with
                | Some (Done out) =>
                    Some (Done (printf "%05x: %02x" [pos; b]
                                :: row ++ printf "\n" [] :: out))
                | other => other
                end
            | Some Undefined => Some Undefined
            | None => None
            end
        end
      else Some (Done [])
  end.

Definition dump_data (data : list Z) (len : Z) : option (outcome (list printed)) :=
  dump_rows (S (Z.to_nat len)) data len 0.

(** What a dump shows: the bytes, the number of lines, and the
    positions that start the lines. *)
Definition bytes_of (out : list printed) : list Z :=
  flat_map (fun p => match p with
                     | printf _ [b] => [b]
                     | printf _ [_; b] => [b]
                     | printf _ _ => []
                     end) out.

Definition lines_of (out : list printed) : nat :=
  length (filter (fun p => match p with printf _ [] => true | _ => false end) out).

Definition heads_of (out : list printed) : list Z :=
  flat_map (fun p => match p with printf _ [pos; _] => [pos] | _ => [] end) out.


(** The end of the row that holds [pos]. *)
Definition row_end (len pos : Z) : Z := Z.min len (pos + (- pos) mod 24).

(** ** Sample runs on the simulated device *)

Section Samples.
Local Existing Instance Sim.sample_config.

Definition sample_payload : list Z := repeat 1 70.
Definition sample_busy : list Z := repeat 2 8.
Definition sample_fail : list Z := repeat 3 8.
Definition sample_log : string * list Z := ("recovery.log"%string, repeat 65 100).

(** Staging a 70-byte payload and two 2x2 bitmaps of 16 bits per pixel
    on a cache partition of twelve 64-byte blocks. *)
Definition sample_update (bad_blocks : list Z) (fs : list (string * list Z))
    (plan : list nat) (busy_bitmap : option (list Z)) (log_filename : option string)
  : outcome Z * list event * Sim.world :=
  exec Sim.device
    (write_update_for_bootloader (Some sample_payload) 70 2 2 16
       busy_bitmap (Some sample_fail) log_filename)
    (Sim.boot None (Some (Sim.blank 16 64 12 bad_blocks)) fs plan).

(** The record holding the command "boot-recovery". *)
Definition sample_record : bootloader_message :=
  fit sizeof_bootloader_message
    [98; 111; 111; 116; 45; 114; 101; 99; 111; 118; 101; 114; 121].

(** A misc partition of [n] pages. *)
Definition sample_misc (page_size : Z) (n : nat) : Sim.world :=
  Sim.boot (Some (Sim.blank page_size page_size n [])) None [] [].

Definition sample_set (page_size : Z) : outcome Z * list event * Sim.world :=
  exec Sim.device (set_bootloader_message sample_record) (sample_misc page_size 3).

Definition sample_get (page_size : Z)
  : outcome (Z * bootloader_message) * list event * Sim.world :=
  exec Sim.device (get_bootloader_message []) (snd (sample_set page_size)).

Definition sample_returned (page_size : Z) : bootloader_message :=
  match fst (fst (sample_get page_size)) with
  | Done (_, out) => out
  | Undefined => []
  end.

Definition sample_short_get
  : outcome (Z * bootloader_message) * list event * Sim.world :=
  exec Sim.device (get_bootloader_message []) (sample_misc 64 2).

End Samples.

Section MoreSamples.
Local Existing Instance Sim.sample_config.

(** The record written to a misc partition of two pages only. *)
Definition sample_short_set : outcome Z * list event * Sim.world :=
  exec Sim.device (set_bootloader_message sample_record) (sample_misc 64 2).

(** Reading the record from a misc partition of three 16-byte pages. *)
Definition sample_small_get
  : outcome (Z * bootloader_message) * list event * Sim.world :=
  exec Sim.device (get_bootloader_message []) (sample_misc 16 3).

(** Staging the sample update, log included, on a cache partition whose
    erase blocks hold 8 bytes. *)
Definition sample_small_blocks : outcome Z * list event * Sim.world :=
  exec Sim.device
    (write_update_for_bootloader (Some sample_payload) 70 2 2 16
       (Some sample_busy) (Some sample_fail) (Some "recovery.log"%string))
    (Sim.boot None (Some (Sim.blank 16 8 96 [])) [] []).

Definition dump_sample : list Z := map Z.of_nat (seq 0 50).

(** The [len] bytes stored from byte [pos] of the cache partition. *)
Definition stored_at (w : Sim.world) (pos len : nat) : list Z :=
  match Sim.cache w with
  | Some f => firstn len (skipn pos (Sim.cells f))
  | None => []
  end.

(** The sample update with a payload length of -1, on a device whose
    fifth call, the payload write, fails. *)
Definition sample_negative_length : outcome Z * list event * Sim.world :=
  exec Sim.device
    (write_update_for_bootloader (Some sample_payload) (-1) 2 2 16
       (Some sample_busy) (Some sample_fail) None)
    (Sim.boot None (Some (Sim.blank 16 64 12 [])) [] [4%nat]).

End MoreSamples.

(** ** Proof support *)

Lemma to_signed_range (z : Z) : - 2 ^ 31 <= to_signed z < 2 ^ 31.
Proof.
  unfold to_signed.
  pose proof (Z.mod_pos_bound z (2 ^ 32) ltac:(lia)) as Hb.
  destruct (z mod 2 ^ 32 <? 2 ^ 31) eqn:Hlt; [apply Z.ltb_lt in Hlt | apply Z.ltb_ge in Hlt]; lia.
Qed.

Lemma to_unsigned_small (z : Z) : 0 <= z < 2 ^ 32 -> to_unsigned z = z.
Proof. intros Hz. unfold to_unsigned. apply Z.mod_small. exact Hz. Qed.

Lemma to_signed_small (z : Z) : - 2 ^ 31 <= z < 2 ^ 31 -> to_signed z = z.
Proof.
  intros Hz. unfold to_signed.
  destruct (Z_lt_le_dec z 0) as [Hneg | Hpos].
  - replace (z mod 2 ^ 32) with (z + 2 ^ 32).
    + destruct (z + 2 ^ 32 <? 2 ^ 31) eqn:Hlt;
        [apply Z.ltb_lt in Hlt | apply Z.ltb_ge in Hlt]; lia.
    + apply Z.mod_unique with (q := -1); lia.
  - rewrite Z.mod_small by lia.
    destruct (z <? 2 ^ 31) eqn:Hlt; [reflexivity | apply Z.ltb_ge in Hlt; lia].
Qed.

(** *** Inversion of [exec], one constructor at a time *)

Lemma exec_Ret_inv {W A : Type} (h : handler W) (a : A) (w w' : W)
    (o : outcome A) (tr : list event) :
  exec h (Ret a) w = (o, tr, w') -> o = Done a /\ tr = [] /\ w' = w.
Proof. cbn. intros [= <- <- <-]. repeat split. Qed.

Lemma exec_Undef_inv {W A : Type} (h : handler W) (w w' : W)
    (o : outcome A) (tr : list event) :
  exec h Undef w = (o, tr, w') -> o = Undefined /\ tr = [] /\ w' = w.
Proof. cbn. intros [= <- <- <-]. repeat split. Qed.

Lemma exec_Log_inv {W A : Type} (h : handler W) (lvl : log_level) (fmt : string)
    (args : list log_arg) (k : prog A) (w w' : W) (o : outcome A) (tr : list event) :
  exec h (Log lvl fmt args k) w = (o, tr, w') ->
  exists tr1, exec h k w = (o, tr1, w') /\ tr = Logged lvl fmt args :: tr1.
Proof.
  cbn. destruct (exec h k w) as [[o1 tr1] w1]. cbn. intros [= <- <- <-].
  exists tr1. split; reflexivity.
Qed.

Lemma exec_Do_inv {W A : Type} (h : handler W) (c : call) (k : resp c -> prog A)
    (w w' : W) (o : outcome A) (tr : list event) :
  exec h (Do c k) w = (o, tr, w') ->
  exists r w1 tr1,
    h c w = (r, w1) /\ exec h (k r) w1 = (o, tr1, w') /\ tr = Called c r :: tr1.
Proof.
  cbn. destruct (h c w) as [r w1]. destruct (exec h (k r) w1) as [[o1 tr1] w2] eqn:Hk.
  cbn. intros [= <- <- <-]. exists r, w1, tr1.
  split; [reflexivity | split; [exact Hk | reflexivity]].
Qed.

(** Symbolic execution of a run [H : exec h p w = (o, tr, w')], one step
    at a time: a call is answered by fresh variables, a test is split,
    a header field that is tested is looked up in the header built
    so far.  The run ends with equations for the outcome, the trace and the
    final world. *)
Ltac exec_step H :=
  lazymatch type of H with
  | exec _ (Ret _) _ = _ =>
      let Ho := fresh "Hout" in let Htr := fresh "Htr" in let Hw := fresh "Hw" in
      apply exec_Ret_inv in H; destruct H as (Ho & Htr & Hw)
  | exec _ Undef _ = _ =>
      let Ho := fresh "Hout" in let Htr := fresh "Htr" in let Hw := fresh "Hw" in
      apply exec_Undef_inv in H; destruct H as (Ho & Htr & Hw)
  | exec _ (Log _ _ _ _) _ = _ =>
      let tr1 := fresh "tr" in let Htr := fresh "Htr" in
      apply exec_Log_inv in H; destruct H as (tr1 & H & Htr)
  | exec _ (Do _ _) _ = _ =>
      let r := fresh "r" in let w1 := fresh "w" in let tr1 := fresh "tr" in
      let E := fresh "Hcall" in let Htr := fresh "Htr" in
      apply exec_Do_inv in H; destruct H as (r & w1 & tr1 & E & H & Htr);
      cbn [resp] in r; cbv beta in H
  | exec _ (when_ _ _ _) _ = _ => unfold when_ at 1 in H; cbv beta in H
  | exec _ (if to_signed ?x =? -1 then _ else _) _ = _ =>
      let x' := eval cbn [image_offset busy_bitmap_offset fail_bitmap_offset
                          set_MAGIC set_version set_size set_image_offset
                          set_image_length set_bitmap_width set_bitmap_height
                          set_bitmap_bpp set_busy_bitmap_offset
                          set_busy_bitmap_length set_fail_bitmap_offset
                          set_fail_bitmap_length zero_header] in x in
      change x with x' in H;
      change (to_signed 0 =? -1) with false in H; cbv iota in H
  | exec _ (if ?b then _ else _) _ = _ =>
      let E := fresh "Htest" in destruct b eqn:E
  | exec _ (match ?x with Some _ => _ | None => _ end) _ = _ =>
      let E := fresh "Hopt" in destruct x eqn:E
  | exec _ (match ?x with (_, _) => _ end) _ = _ => destruct x
  end.

Ltac exec_all H := cbv beta zeta in H; repeat exec_step H.

Lemma zeros_length (n : Z) : length (zeros n) = Z.to_nat n.
Proof. unfold zeros. apply repeat_length. Qed.

Lemma fit_length (n : Z) (l : list Z) : length (fit n l) = Z.to_nat n.
Proof.
  unfold fit. rewrite length_firstn, length_app, zeros_length. lia.
Qed.

Lemma fit_exact (n : Z) (l : list Z) : Z.of_nat (length l) = n -> fit n l = l.
Proof.
  intros <-. unfold fit. rewrite Z.sub_diag, Nat2Z.id. cbn. rewrite app_nil_r.
  apply firstn_all.
Qed.

Lemma memcpy_to_from (buf buf' src : list Z) (off : Z) :
  memcpy_to buf off src = Some buf' ->
  memcpy_from buf' off (Z.of_nat (length src)) = Some src.
Proof.
  unfold memcpy_to, memcpy_from.
  destruct (0 <=? off) eqn:Hoff; [ | discriminate ].
  destruct (off + Z.of_nat (length src) <=? Z.of_nat (length buf)) eqn:Hfit; [ | discriminate ].
  cbn [andb]. intros [= <-].
  apply Z.leb_le in Hoff, Hfit.
  assert (Hlen : length (firstn (Z.to_nat off) buf) = Z.to_nat off)
    by (rewrite length_firstn; lia).
  replace (0 <=? Z.of_nat (length src)) with true by (symmetry; apply Z.leb_le; lia).
  rewrite !length_app, length_skipn, Hlen.
  replace (_ <=? _) with true by (symmetry; apply Z.leb_le; lia).
  cbn [andb]. f_equal.
  rewrite skipn_app, Hlen, Nat.sub_diag, skipn_all2 by lia. cbn [skipn app].
  rewrite Nat2Z.id, firstn_app, Nat.sub_diag, firstn_all. cbn. apply app_nil_r.
Qed.

Lemma memcpy_to_prefix (buf buf' src : list Z) (off : Z) :
  memcpy_to buf off src = Some buf' ->
  firstn (Z.to_nat off) buf' = firstn (Z.to_nat off) buf.
Proof.
  unfold memcpy_to.
  destruct (0 <=? off) eqn:Hoff; [ | discriminate ].
  destruct (off + Z.of_nat (length src) <=? Z.of_nat (length buf)) eqn:Hfit; [ | discriminate ].
  cbn [andb]. intros [= <-].
  apply Z.leb_le in Hoff, Hfit.
  assert (Hlen : length (firstn (Z.to_nat off) buf) = Z.to_nat off)
    by (rewrite length_firstn; lia).
  rewrite firstn_app, Hlen, Nat.sub_diag. cbn [firstn]. rewrite app_nil_r.
  rewrite firstn_firstn. f_equal. lia.
Qed.

Lemma memcpy_to_suffix (buf buf' src : list Z) (off k : Z) :
  memcpy_to buf off src = Some buf' ->
  off + Z.of_nat (length src) <= k ->
  skipn (Z.to_nat k) buf' = skipn (Z.to_nat k) buf.
Proof.
  unfold memcpy_to.
  destruct (0 <=? off) eqn:Hoff; [ | discriminate ].
  destruct (off + Z.of_nat (length src) <=? Z.of_nat (length buf)) eqn:Hfit; [ | discriminate ].
  cbn [andb]. intros [= <-] Hk.
  apply Z.leb_le in Hoff, Hfit.
  assert (Hlen : length (firstn (Z.to_nat off) buf) = Z.to_nat off)
    by (rewrite length_firstn; lia).
  rewrite skipn_app, Hlen, (skipn_all2 (firstn _ _)) by lia. cbn [app].
  rewrite skipn_app, (skipn_all2 src) by lia. cbn [app].
  rewrite skipn_skipn. f_equal. lia.
Qed.

(** ** The boot control message: facts *)

Section BootMessageFacts.
Context {cfg : Config} {W : Type} (h : handler W).

Lemma three_pages_length (write_size : Z) :
  (to_signed (write_size * MISC_PAGES) <? 0) = false ->
  to_unsigned (to_signed (write_size * MISC_PAGES)) = to_signed (write_size * MISC_PAGES)
  /\ 0 <= to_signed (write_size * MISC_PAGES).
Proof.
  intros Hpos. apply Z.ltb_ge in Hpos.
  pose proof (to_signed_range (write_size * MISC_PAGES)) as Hr.
  split; [apply to_unsigned_small; lia | exact Hpos].
Qed.

(** C5.  In every run of [get_bootloader_message], the one read that is
    issued asks for the three pages ([write_size * MISC_PAGES] bytes,
    with [write_size] as reported by [mtd_partition_info]); whenever
    that read returns fewer bytes than asked, whatever else it reports,
    the function returns -1 and the caller's record is left as it was. *)
Theorem get_short_read_fails (w w' : W) (out : bootloader_message)
    (o : outcome (Z * bootloader_message)) (tr : list event)
    (ctx : ptr) (len r : Z) (bytes : list Z) :
  exec h (get_bootloader_message out) w = (o, tr, w') ->
  In (ctx, len, (r, bytes)) (reads_of tr) ->
  (exists part write_size,
      In (part, write_size_field, (0, write_size)) (infos_of tr)
      /\ len = to_signed (write_size * MISC_PAGES) /\ 0 <= len)
  /\ (r < len -> o = Done (-1, out)).
Proof.
  intros H Hin. unfold get_bootloader_message in H.
  exec_all H.
  all: subst; cbn in Hin; try tauto.
  all: destruct Hin as [Hin | []]; injection Hin as <- <- <- <-.
  all: apply negb_false_iff, Z.eqb_eq in Htest0; subst.
  all: destruct (three_pages_length _ Htest2) as [Hlen Hpos]; rewrite Hlen.
  all: split; [eexists _, _; cbn; split; [left; reflexivity | split; [reflexivity | exact Hpos]] | ].
  all: try reflexivity.
  all: intros Hshort; apply negb_false_iff, Z.eqb_eq in Htest3; lia.
Qed.

(** C4, amended.  A successful [set_bootloader_message r] followed by a
    successful [get_bootloader_message], on a partition that reads back
    what was written, returns a record equal to [r]; and when the record
    is no larger than one page, pages 0 and 2 of the region read back
    are the pages 0 and 2 that [set_bootloader_message] had read before
    writing. *)
Theorem set_get_round_trip (w w1 w2 : W) (r out out' : bootloader_message)
    (tr1 tr2 : list event) :
  exec h (set_bootloader_message r) w = (Done 0, tr1, w1) ->
  exec h (get_bootloader_message out) w1 = (Done (0, out'), tr2, w2) ->
  Z.of_nat (length r) = sizeof_bootloader_message ->
  reads_back tr1 tr2 ->
  out' = r
  /\ forall write_size old new,
       page_size_in tr1 = Some write_size ->
       0 <= write_size < 2 ^ 32 ->
       sizeof_bootloader_message <= write_size ->
       region_read tr1 = Some old ->
       region_read tr2 = Some new ->
       page_of write_size 0 new = page_of write_size 0 old
       /\ page_of write_size 2 new = page_of write_size 2 old.
Proof.
  intros Hset Hget Hlen [Hpage Hback].
  unfold set_bootloader_message in Hset. exec_all Hset.
  all: try discriminate.
  unfold get_bootloader_message in Hget. exec_all Hget.
  all: try discriminate.
  all: try (injection Hout0 as [=]; discriminate).
  injection Hout0 as <-.
  apply negb_false_iff, Z.eqb_eq in Htest0, Htest8. subst.
  unfold page_size_in, region_read, region_written in *.
  cbn in Hpage, Hback |- *.
  injection Hpage as ->. injection Hback as Hback.
  rewrite (fit_exact _ r Hlen) in Hopt.
  destruct (three_pages_length _ Htest10) as [Hsame _].
  rewrite Hsame in Hback. rewrite Hback in Hopt1.
  split.
  - apply memcpy_to_from in Hopt. rewrite Hlen in Hopt. congruence.
  - intros write_size old new [= <-] Hws Hfits [= <-] [= <-].
    rewrite Hsame. rewrite Hback. unfold MISC_COMMAND_PAGE in Hopt.
    rewrite Z.mul_1_r, to_unsigned_small in Hopt by exact Hws.
    unfold page_of. split.
    + rewrite Z.mul_0_l. cbn [Z.to_nat skipn].
      apply (memcpy_to_prefix _ _ _ _ Hopt).
    + f_equal. apply (memcpy_to_suffix _ _ _ _ _ Hopt). lia.
Qed.


End BootMessageFacts.

(** *** Finding event patterns in a trace *)

Lemma occurs_here (pat : list event) (K : list event -> Prop) (tr : list event) :
  starts_with pat tr -> K (skipn (length pat) tr) -> occurs_then pat K tr.
Proof. intros Hs Hk. destruct tr; cbn [occurs_then]; left; split; assumption. Qed.

Lemma occurs_later (pat : list event) (K : list event -> Prop) (e : event)
    (tr : list event) :
  occurs_then pat K tr -> occurs_then pat K (e :: tr).
Proof. intros Ho. cbn [occurs_then]. right. exact Ho. Qed.

Ltac find_occurrence :=
  lazymatch goal with
  | |- ends _ => exact eq_refl
  | |- occurs_then _ _ _ =>
      first [ apply occurs_here;
              [ cbn [starts_with]; solve [repeat split]
              | cbn [skipn length]; find_occurrence ]
            | apply occurs_later; find_occurrence ]
  end.

Ltac passed H := apply negb_false_iff, Z.eqb_eq in H.

Section UpdateImageFacts.
Context {cfg : Config} {W : Type} (h : handler W).

(** In every run of [write_update_for_bootloader] that returns 0:
    the erase-align that immediately precedes the payload write reported
    [image_start_pos]; [mtd_find_write_start] was asked in the first
    pass for the true write start of that position and answered [p];
    the header written at the start of the second session carries the
    magic and records [p] (converted to [unsigned]) as the payload
    offset; and the erase-align that ends the second pass reported
    [image_start_pos] again -- a run in which it reports anything else
    does not return 0. *)
Theorem recorded_image_offset (w w' : W) (update : option (list Z)) (update_length : Z)
    (bitmap_width bitmap_height bitmap_bpp : Z) (busy_bitmap fail_bitmap : option (list Z))
    (log_filename : option string) (tr : list event) :
  exec h (write_update_for_bootloader update update_length bitmap_width bitmap_height
            bitmap_bpp busy_bitmap fail_bitmap log_filename) w = (Done 0, tr, w') ->
  exists part c1 c2 image_start_pos busy_start_pos p header,
    occurs_then
      [Called (mtd_erase_blocks c1 0) image_start_pos;
       Called (mtd_write_data c1 update (to_unsigned update_length)) update_length;
       Called (mtd_erase_blocks c1 0) busy_start_pos;
       Called (mtd_find_write_start c1 image_start_pos) p]
      (occurs_then
         [Called (mtd_write_close c1) 0;
          Called (mtd_write_partition part) c2;
          Called (mtd_write_data c2 (Some (header_bytes header)) (to_unsigned header_size))
            header_size]
         (occurs_then
            [Called (mtd_erase_blocks c2 0) image_start_pos;
             Logged E "closing partition\n" [];
             Called (mtd_write_close c2) 0]
            ends)) tr
    /\ MAGIC header = UPDATE_MAGIC
    /\ image_offset header = to_unsigned p
    /\ (0 <= p < 2 ^ 32 -> image_offset header = p).
Proof.
  intros H. unfold write_update_for_bootloader in H.
  exec_all H.
  all: try discriminate.
  all: repeat match goal with Ht : negb (_ =? _) = false |- _ => passed Ht end; subst.
  all: do 7 eexists.
  all: (split; [find_occurrence | ]).
  all: cbn [MAGIC image_offset set_MAGIC set_version set_size set_image_offset
         set_image_length set_bitmap_width set_bitmap_height set_bitmap_bpp
         set_busy_bitmap_offset set_busy_bitmap_length set_fail_bitmap_offset
         set_fail_bitmap_length].
  all: (split; [reflexivity | split; [reflexivity | apply to_unsigned_small]]).
Qed.

Lemma zeros_app (a b : Z) : 0 <= a -> 0 <= b -> zeros a ++ zeros b = zeros (a + b).
Proof.
  intros Ha Hb. unfold zeros. rewrite <- repeat_app. f_equal. lia.
Qed.

Lemma zero_header_bytes : header_bytes zero_header = zeros header_size.
Proof.
  unfold header_bytes, zero_header, header_size.
  cbn [MAGIC version size image_offset image_length bitmap_width bitmap_height
       bitmap_bpp busy_bitmap_offset busy_bitmap_length fail_bitmap_offset
       fail_bitmap_length].
  assert (Hm : 0 <= UPDATE_MAGIC_SIZE) by (unfold UPDATE_MAGIC_SIZE; lia).
  assert (Hp : 0 <= magic_padding)
    by (unfold magic_padding; apply Z.mod_pos_bound; lia).
  rewrite fit_exact by (rewrite zeros_length; lia).
  change (le32 0) with (zeros 4).
  rewrite !zeros_app by lia. f_equal. lia.
Qed.

Lemma header_size_pos : 0 < header_size.
Proof.
  unfold header_size.
  assert (Hm : 0 <= UPDATE_MAGIC_SIZE) by (unfold UPDATE_MAGIC_SIZE; lia).
  assert (Hp : 0 <= magic_padding)
    by (unfold magic_padding; apply Z.mod_pos_bound; lia).
  lia.
Qed.

Lemma first_session_in_full (c : ptr) (update busy_bitmap fail_bitmap : option (list Z))
    (update_length bitmap_bpp bitmap_width bitmap_height : Z) :
  let bitmap_length := bitmap_length_of bitmap_bpp bitmap_width bitmap_height in
  header_size < 2 ^ 32 -> 0 <= update_length < 2 ^ 32 -> 0 <= bitmap_length ->
  forall reserve, Forall taken_in_full reserve ->
  Forall taken_in_full
    ((c, Some (zeros header_size), to_unsigned header_size, header_size)
     :: reserve
     ++ [(c, update, to_unsigned update_length, update_length);
         (c, busy_bitmap, to_unsigned bitmap_length, bitmap_length);
         (c, fail_bitmap, to_unsigned bitmap_length, bitmap_length)]).
Proof.
  intros bitmap_length Hh Hu Hb reserve Hres.
  pose proof header_size_pos.
  assert (bitmap_length < 2 ^ 32)
    by (pose proof (to_signed_range
                      (to_signed (Z.quot (to_signed (bitmap_bpp + 7)) 8 * bitmap_width)
                       * bitmap_height));
        unfold bitmap_length, bitmap_length_of; lia).
  constructor.
  - cbn. symmetry. apply to_unsigned_small. lia.
  - apply Forall_app. split; [exact Hres | ].
    repeat constructor; cbn; symmetry; apply to_unsigned_small; lia.
Qed.

(** C1, amended.  In every run of [write_update_for_bootloader]: the
    first write of the first session, which lands at the start of the
    partition, is a header-sized block of zero bytes; a second session
    is opened only after the first session made exactly these writes,
    each answered with the signed length the code compares it with, and
    was closed with success: the zero header, the one placeholder byte
    of the log block exactly when a log file name is given, the payload
    and the two bitmaps; for a payload length and a bitmap length that
    are not negative, every one of these writes returned the length it
    was asked to write; no third session is opened; and the first write
    of the second session is the populated header, which carries the
    magic.  Nothing is said about how the run ends after that write. *)
Theorem header_written_last (w w' : W) (update : option (list Z)) (update_length : Z)
    (bitmap_width bitmap_height bitmap_bpp : Z) (busy_bitmap fail_bitmap : option (list Z))
    (log_filename : option string) (o : outcome Z) (tr : list event) :
  exec h (write_update_for_bootloader update update_length bitmap_width bitmap_height
            bitmap_bpp busy_bitmap fail_bitmap log_filename) w = (o, tr, w') ->
  let bitmap_length := bitmap_length_of bitmap_bpp bitmap_width bitmap_height in
  (forall s rest wr,
      sessions_of tr = s :: rest -> nth_error (writes_of s) 0 = Some wr ->
      exists c1 r, wr = (c1, Some (zeros header_size), to_unsigned header_size, r))
  /\ (forall s1 s2 rest,
      sessions_of tr = s1 :: s2 :: rest ->
      rest = []
      /\ (exists c1 reserve,
            writes_of s1 =
              (c1, Some (zeros header_size), to_unsigned header_size, header_size)
              :: reserve
              ++ [(c1, update, to_unsigned update_length, update_length);
                  (c1, busy_bitmap, to_unsigned bitmap_length, bitmap_length);
                  (c1, fail_bitmap, to_unsigned bitmap_length, bitmap_length)]
            /\ (log_filename = None -> reserve = [])
            /\ (log_filename <> None ->
                exists header, reserve = [(c1, Some (header_bytes header), 1, 1)])
            /\ closes_of s1 = [(c1, 0)]
            /\ (header_size < 2 ^ 32 -> 0 <= update_length < 2 ^ 32 ->
                0 <= bitmap_length ->
                Forall taken_in_full (writes_of s1)))
      /\ (forall wr,
            nth_error (writes_of s2) 0 = Some wr ->
            exists c2 header r,
              wr = (c2, Some (header_bytes header), to_unsigned header_size, r)
              /\ MAGIC header = UPDATE_MAGIC)).
Proof.
  intros H bitmap_length. unfold write_update_for_bootloader in H.
  exec_all H.
  all: repeat match goal with Ht : negb (_ =? _) = false |- _ => passed Ht end.
  all: subst.
  all: (split; [intros s rest wr Hs Hw | intros s1 s2 rest Hs]).
  all: cbn [sessions_of split_sessions snd] in Hs.
  all: try discriminate Hs.
  all: try (injection Hs as <- <- <-).
  all: try (injection Hs as <- <-).
  all: cbn [writes_of closes_of app nth_error] in *.
  all: try discriminate Hw.
  all: try (injection Hw as <-; rewrite zero_header_bytes; eexists _, _; reflexivity).
  all: (split; [reflexivity | ]).
  all: rewrite zero_header_bytes.
  all: split.
  all: try (intros wr Hw;
            first [ discriminate Hw
                  | injection Hw as <-; eexists _, _, _; split; reflexivity ]).
  all: first
         [ eexists _, []; split; [reflexivity | ];
           split; [reflexivity | ];
           split; [ intros Hn; destruct log_filename; [discriminate | congruence] | ];
           split; [reflexivity | ];
           intros Hh Hu Hb; apply (first_session_in_full _ _ _ _ _ _ _ _ Hh Hu Hb []); constructor
         | eexists _, [_]; split; [reflexivity | ];
           split; [ intros ->; discriminate | ];
           split; [ intros _; eexists; reflexivity | ];
           split; [reflexivity | ];
           intros Hh Hu Hb; apply (first_session_in_full _ _ _ _ _ _ _ _ Hh Hu Hb [_]);
           repeat constructor ].
Qed.
(** C10.  In a run of [write_update_for_bootloader] with a log file name
    that gets to the log step with a positive erase size and returns,
    the calls on the log file are exactly [fopen], [fseek], [fread] and
    [fclose], in this order, and the last three receive the handle [f]
    that [fopen] returned, whatever it is: nothing tests [f], and there
    is no other way through the step for a file that cannot be opened. *)
Theorem log_file_never_checked (w w' : W) (update : option (list Z)) (update_length : Z)
    (bitmap_width bitmap_height bitmap_bpp : Z) (busy_bitmap fail_bitmap : option (list Z))
    (name : string) (v : Z) (tr : list event) (part : ptr) (erase_size : Z) :
  exec h (write_update_for_bootloader update update_length bitmap_width bitmap_height
            bitmap_bpp busy_bitmap fail_bitmap (Some name)) w = (Done v, tr, w') ->
  In (part, erase_size_field, (0, erase_size)) (infos_of tr) ->
  0 < erase_size ->
  exists f r1 rd r3,
    stdio_of tr =
      [Called (fopen name "rb") f;
       Called (fseek f (to_signed (- (erase_size - sizeof_size_t - LOG_MAGIC_SIZE)))
                 SEEK_END) r1;
       Called (fread f 1 (to_unsigned (erase_size - sizeof_size_t - LOG_MAGIC_SIZE))) rd;
       Called (fclose f) r3].
Proof.
  intros H Hin Hpos. unfold write_update_for_bootloader in H.
  exec_all H.
  all: try discriminate.
  all: subst tr; repeat match goal with Ht : ?t = _ :: _ |- _ => is_var t; subst t end;
       repeat match goal with Ht : ?t = [] |- _ => is_var t; subst t end.
  all: cbn [infos_of app In] in Hin; try contradiction.
  all: destruct Hin as [Hin | []]; injection Hin as -> -> ->.
  all: try (cbn in Htest10; discriminate Htest10).
  all: try (apply Z.ltb_ge in Htest11; lia).
  all: cbn [stdio_of app]; eexists _, _, _, _; reflexivity.
Qed.

(** The header fields that lines 211, 228 and 240 compare with -1 are
    read before they are assigned: whatever the erase-aligns returned,
    they still hold the zero of the [memset]. *)
Lemma offsets_unset_when_tested (h0 : update_header) (a b c d e f g i : Z) :
  image_offset h0 = 0 -> busy_bitmap_offset h0 = 0 -> fail_bitmap_offset h0 = 0 ->
  image_offset (set_image_length a h0) = 0
  /\ busy_bitmap_offset
       (set_busy_bitmap_length b
          (set_bitmap_bpp c (set_bitmap_height d (set_bitmap_width e
             (set_image_offset f (set_image_length a h0)))))) = 0
  /\ fail_bitmap_offset
       (set_fail_bitmap_length g
          (set_busy_bitmap_offset i
             (set_busy_bitmap_length b
                (set_bitmap_bpp c (set_bitmap_height d (set_bitmap_width e
                   (set_image_offset f (set_image_length a h0)))))))) = 0.
Proof. intros H1 H2 H3. cbn. repeat split; assumption. Qed.

(** The branches that report a failed region write are entered through
    a short write only: in a run that logs one of their messages, the
    last write is that of the payload or of a bitmap and returned
    another count than the length of the region.  The tests of the
    offsets never send a run there. *)
Lemma offset_tests_never_fire (w w' : W) (update : option (list Z)) (update_length : Z)
    (bitmap_width bitmap_height bitmap_bpp : Z) (busy_bitmap fail_bitmap : option (list Z))
    (log_filename : option string) (o : outcome Z) (tr : list event)
    (fmt : string) (args : list log_arg) :
  exec h (write_update_for_bootloader update update_length bitmap_width bitmap_height
            bitmap_bpp busy_bitmap fail_bitmap log_filename) w = (o, tr, w') ->
  In (E, fmt, args) (logs_of tr) ->
  fmt = "Can't write update to %s\n(%s)\n"%string
  \/ fmt = "Can't write bitmap to %s\n(%s)\n"%string ->
  let bitmap_length := bitmap_length_of bitmap_bpp bitmap_width bitmap_height in
  exists c r,
    (nth_error (rev (writes_of tr)) 0
       = Some (c, update, to_unsigned update_length, r) /\ r <> update_length)
    \/ (nth_error (rev (writes_of tr)) 0
          = Some (c, busy_bitmap, to_unsigned bitmap_length, r) /\ r <> bitmap_length)
    \/ (nth_error (rev (writes_of tr)) 0
          = Some (c, fail_bitmap, to_unsigned bitmap_length, r) /\ r <> bitmap_length).
Proof.
  intros H Hin Hfmt bitmap_length. unfold write_update_for_bootloader in H.
  exec_all H.
  all: subst tr; repeat match goal with Ht : ?t = _ :: _ |- _ => is_var t; subst t end;
       repeat match goal with Ht : ?t = [] |- _ => is_var t; subst t end.
  all: cbn [logs_of In] in Hin.
  all: repeat (destruct Hin as [Hin | Hin]; [ | ]); try contradiction.
  all: injection Hin as <- <-.
  all: try (destruct Hfmt as [Hfmt | Hfmt]; discriminate Hfmt).
  all: match goal with
       | Ht : negb (?r =? _) = true |- _ =>
           apply negb_true_iff, Z.eqb_neq in Ht; eexists; exists r
       end.
  all: cbn [writes_of app rev nth_error].
  all: first [ left; split; [reflexivity | assumption]
             | right; left; split; [reflexivity | assumption]
             | right; right; split; [reflexivity | assumption] ].
Qed.

(** When the write of the log block fails, the session is closed and
    the next call erase-aligns that same session. *)
Lemma closed_session_is_reused (w w' : W) (update : option (list Z)) (update_length : Z)
    (bitmap_width bitmap_height bitmap_bpp : Z) (busy_bitmap fail_bitmap : option (list Z))
    (log_filename : option string) (o : outcome Z) (tr : list event) :
  exec h (write_update_for_bootloader update update_length bitmap_width bitmap_height
            bitmap_bpp busy_bitmap fail_bitmap log_filename) w = (o, tr, w') ->
  In (E, "failed to store log in cache partition\n(%s)\n"%string, [a_errno])
    (logs_of tr) ->
  exists c log erase_size r r1 r2,
    to_unsigned r <> erase_size
    /\ occurs_then
         [Called (mtd_write_data c (Some log) erase_size) r;
          Logged E "failed to store log in cache partition\n(%s)\n" [a_errno];
          Called (mtd_write_close c) r1;
          Called (mtd_erase_blocks c 0) r2]
         (fun _ => True) tr.
Proof.
  intros H Hin. unfold write_update_for_bootloader in H.
  exec_all H.
  all: subst tr; repeat match goal with Ht : ?t = _ :: _ |- _ => is_var t; subst t end;
       repeat match goal with Ht : ?t = [] |- _ => is_var t; subst t end.
  all: cbn [logs_of In] in Hin.
  all: repeat (destruct Hin as [Hin | Hin]; [ | ]); try contradiction.
  all: try discriminate Hin.
  all: match goal with
       | Ht : negb (to_unsigned _ =? _) = true |- _ =>
           apply negb_true_iff, Z.eqb_neq in Ht
       end.
  all: do 6 eexists; split; [eassumption | ].
  all: repeat first [ apply occurs_here; [cbn [starts_with]; solve [repeat split] | trivial]
                    | apply occurs_later ].
Qed.



End UpdateImageFacts.

(** ** The bitmap length *)

Lemma to_signed_mod (a : Z) : to_signed a mod 2 ^ 32 = a mod 2 ^ 32.
Proof.
  unfold to_signed. destruct (a mod 2 ^ 32 <? 2 ^ 31).
  - apply Z.mod_mod. lia.
  - replace (a mod 2 ^ 32 - 2 ^ 32) with (a mod 2 ^ 32 + (-1) * 2 ^ 32) by ring.
    rewrite Z.mod_add by lia. apply Z.mod_mod. lia.
Qed.

Lemma to_signed_mul_l (a b : Z) : to_signed (to_signed a * b) = to_signed (a * b).
Proof.
  assert (Hm : (to_signed a * b) mod 2 ^ 32 = (a * b) mod 2 ^ 32).
  { rewrite <- Z.mul_mod_idemp_l, to_signed_mod, Z.mul_mod_idemp_l by lia.
    reflexivity. }
  unfold to_signed at 1 3. rewrite Hm. reflexivity.
Qed.

Lemma quot_plus_7 (bpp : Z) : 0 <= bpp -> Z.quot (bpp + 7) 8 = ceil_div bpp 8.
Proof.
  intros Hb. rewrite Z.quot_div_nonneg by lia. unfold ceil_div.
  pose proof (Z.div_mod (bpp + 7) 8 ltac:(lia)) as H1.
  pose proof (Z.mod_pos_bound (bpp + 7) 8 ltac:(lia)) as H2.
  pose proof (Z.div_mod (- bpp) 8 ltac:(lia)) as H3.
  pose proof (Z.mod_pos_bound (- bpp) 8 ltac:(lia)) as H4.
  lia.
Qed.

(** C8, amended.  For a non-negative [bitmap_bpp] (small enough for
    [bitmap_bpp + 7] to be an [int]) and dimensions for which
    [ceil(bpp / 8) * width * height] is an [int], the length computed
    for the bitmaps is [ceil(bpp / 8) * width * height]. *)
Theorem bitmap_length_formula (bpp width height : Z) :
  0 <= bpp <= INT_MAX - 7 ->
  INT_MIN <= ceil_div bpp 8 * width * height <= INT_MAX ->
  bitmap_length_of bpp width height = ceil_div bpp 8 * width * height.
Proof.
  unfold INT_MAX, INT_MIN. intros Hb Hr. unfold bitmap_length_of.
  rewrite (to_signed_small (bpp + 7)) by lia.
  rewrite quot_plus_7 by lia.
  rewrite to_signed_mul_l. apply to_signed_small. lia.
Qed.

(** ** The facts at work on the simulated device *)

Section Runs.
Local Existing Instance Sim.sample_config.

Lemma get_short_read_fails_witness :
  (exists part write_size,
      In (part, write_size_field, (0, write_size)) (infos_of (snd (fst sample_short_get)))
      /\ 192 = to_signed (write_size * MISC_PAGES) /\ 0 <= 192)
  /\ (128 < 192 -> fst (fst sample_short_get) = Done (-1, [])).
Proof.
  apply (get_short_read_fails Sim.device (sample_misc 64 2) (snd sample_short_get) []
           (fst (fst sample_short_get)) (snd (fst sample_short_get))
           Sim.read_ctx 192 128 (repeat 255 128)).
  - vm_compute. reflexivity.
  - vm_compute. left. reflexivity.
Defined.

Lemma set_get_round_trip_witness :
  sample_returned 64 = sample_record
  /\ forall write_size old new,
       page_size_in (snd (fst (sample_set 64))) = Some write_size ->
       0 <= write_size < 2 ^ 32 ->
       sizeof_bootloader_message <= write_size ->
       region_read (snd (fst (sample_set 64))) = Some old ->
       region_read (snd (fst (sample_get 64))) = Some new ->
       page_of write_size 0 new = page_of write_size 0 old
       /\ page_of write_size 2 new = page_of write_size 2 old.
Proof.
  apply (set_get_round_trip Sim.device (sample_misc 64 3) (snd (sample_set 64))
           (snd (sample_get 64)) sample_record [] (sample_returned 64)
           (snd (fst (sample_set 64))) (snd (fst (sample_get 64)))).
  - vm_compute. reflexivity.
  - vm_compute. reflexivity.
  - vm_compute. reflexivity.
  - split; vm_compute; reflexivity.
Defined.

(** C4, as stated, fails.  A record of 48 bytes on pages of 32 bytes:
    the record is stored and read back, page 0 is kept, and page 2 is
    not. *)
Lemma set_overwrites_page_2 :
  fst (fst (sample_set 32)) = Done 0
  /\ fst (fst (sample_get 32)) = Done (0, sample_record)
  /\ reads_back (snd (fst (sample_set 32))) (snd (fst (sample_get 32)))
  /\ option_map (page_of 32 0) (region_read (snd (fst (sample_get 32))))
     = option_map (page_of 32 0) (region_read (snd (fst (sample_set 32))))
  /\ option_map (page_of 32 2) (region_read (snd (fst (sample_get 32))))
     <> option_map (page_of 32 2) (region_read (snd (fst (sample_set 32)))).
Proof.
  repeat split; try (vm_compute; reflexivity).
  vm_compute. discriminate.
Qed.


Example sample_set_log_line :
  logs_of (snd (fst (sample_set 64)))
  = [(I, set_boot_command_format,
      [a_bytes [98; 111; 111; 116; 45; 114; 101; 99; 111; 118; 101; 114; 121]])].
Proof. vm_compute. reflexivity. Qed.

(** One defective block right after the header block: the payload is
    laid out one block further than the erase-align reports, and the
    header records where it really starts. *)
Lemma recorded_image_offset_witness :
  exists part c1 c2 image_start_pos busy_start_pos p header,
    occurs_then
      [Called (mtd_erase_blocks c1 0) image_start_pos;
       Called (mtd_write_data c1 (Some sample_payload) (to_unsigned 70)) 70;
       Called (mtd_erase_blocks c1 0) busy_start_pos;
       Called (mtd_find_write_start c1 image_start_pos) p]
      (occurs_then
         [Called (mtd_write_close c1) 0;
          Called (mtd_write_partition part) c2;
          Called (mtd_write_data c2 (Some (header_bytes header)) (to_unsigned header_size))
            header_size]
         (occurs_then
            [Called (mtd_erase_blocks c2 0) image_start_pos;
             Logged E "closing partition\n" [];
             Called (mtd_write_close c2) 0]
            ends))
      (snd (fst (sample_update [1] [] [] (Some sample_busy) None)))
    /\ MAGIC header = UPDATE_MAGIC
    /\ image_offset header = to_unsigned p
    /\ (0 <= p < 2 ^ 32 -> image_offset header = p).
Proof.
  apply (recorded_image_offset Sim.device
           (Sim.boot None (Some (Sim.blank 16 64 12 [1])) [] [])
           (snd (sample_update [1] [] [] (Some sample_busy) None))
           (Some sample_payload) 70 2 2 16 (Some sample_busy) (Some sample_fail) None).
  vm_compute. reflexivity.
Defined.

Example sample_update_remapped :
  let run := sample_update [1] [] [] (Some sample_busy) None in
  fst (fst run) = Done 0
  /\ erases_of (snd (fst run))
     = [(Sim.write_ctx, 0, 64); (Sim.write_ctx, 0, 256); (Sim.write_ctx, 0, 320);
        (Sim.write_ctx, 0, 384); (Sim.write_ctx, 0, 64)]
  /\ Sim.stored_magic (snd run) = UPDATE_MAGIC.
Proof. vm_compute. repeat split. Qed.

Lemma header_written_last_witness :
  let tr := snd (fst (sample_update [] [sample_log] [] (Some sample_busy)
                        (Some "recovery.log"%string))) in
  let bitmap_length := bitmap_length_of 16 2 2 in
  (forall s rest wr,
      sessions_of tr = s :: rest -> nth_error (writes_of s) 0 = Some wr ->
      exists c1 r, wr = (c1, Some (zeros header_size), to_unsigned header_size, r))
  /\ (forall s1 s2 rest,
      sessions_of tr = s1 :: s2 :: rest ->
      rest = []
      /\ (exists c1 header,
            writes_of s1 =
              [(c1, Some (zeros header_size), to_unsigned header_size, header_size);
               (c1, Some (header_bytes header), 1, 1);
               (c1, Some sample_payload, to_unsigned 70, 70);
               (c1, Some sample_busy, to_unsigned bitmap_length, bitmap_length);
               (c1, Some sample_fail, to_unsigned bitmap_length, bitmap_length)]
            /\ closes_of s1 = [(c1, 0)]
            /\ Forall taken_in_full (writes_of s1))
      /\ (forall wr,
            nth_error (writes_of s2) 0 = Some wr ->
            exists c2 header r,
              wr = (c2, Some (header_bytes header), to_unsigned header_size, r)
              /\ MAGIC header = UPDATE_MAGIC)).
Proof.
  intros tr bitmap_length.
  assert (T : exec Sim.device
                (write_update_for_bootloader (Some sample_payload) 70 2 2 16
                   (Some sample_busy) (Some sample_fail) (Some "recovery.log"%string))
                (Sim.boot None (Some (Sim.blank 16 64 12 [])) [sample_log] [])
              = (fst (fst (sample_update [] [sample_log] [] (Some sample_busy)
                             (Some "recovery.log"%string))),
                 tr,
                 snd (sample_update [] [sample_log] [] (Some sample_busy)
                        (Some "recovery.log"%string))))
    by (vm_compute; reflexivity).
  apply header_written_last in T. destruct T as [T1 T2].
  split; [exact T1 | ].
  intros s1 s2 rest Hs.
  destruct (T2 s1 s2 rest Hs)
    as (Hrest & (c1 & reserve & Hw & _ & Hsome & Hc & Hfull) & Hlast).
  split; [exact Hrest | split; [ | exact Hlast]].
  destruct (Hsome ltac:(discriminate)) as (header & ->).
  exists c1, header. split; [exact Hw | split; [exact Hc | ]].
  apply Hfull.
  - vm_compute. reflexivity.
  - lia.
  - vm_compute. discriminate.
Defined.

Example sample_update_two_sessions :
  map (fun s => length (writes_of s))
    (sessions_of (snd (fst (sample_update [] [sample_log] [] (Some sample_busy)
                              (Some "recovery.log"%string)))))
  = [5; 2]%nat.
Proof. vm_compute. reflexivity. Qed.

(** The second session cannot be opened: the function returns -1 and
    the header at the start of the partition is the zero block. *)
Example sample_update_stays_invalid :
  let run := sample_update [] [] [14%nat] (Some sample_busy) None in
  fst (fst run) = Done (-1) /\ Sim.stored_magic (snd run) = zeros 16.
Proof. vm_compute. split; reflexivity. Qed.

(** C1, as stated, fails.  The final erase-align fails: the function
    reports the misalignment and returns -1, and the header that is left
    at the start of the partition carries the magic. *)
Lemma header_magic_after_failure :
  let run := sample_update [] [] [16%nat] (Some sample_busy) None in
  fst (fst run) = Done (-1)
  /\ Sim.stored_magic (snd run) = UPDATE_MAGIC
  /\ In (E, "Misalignment rewriting %s\n(%s)\n"%string, [a_str CACHE_NAME; a_errno])
       (logs_of (snd (fst run))).
Proof.
  vm_compute. split; [reflexivity | split; [reflexivity | ]].
  repeat (first [left; reflexivity | right]).
Qed.

(** A payload length of -1 is compared with the result of a write that
    failed: the run goes on and returns 0 with the magic in place and no
    payload byte after the header. *)
Example negative_length_not_written :
  fst (fst sample_negative_length) = Done 0
  /\ nth_error (writes_of (snd (fst sample_negative_length))) 1
     = Some (Sim.write_ctx, Some sample_payload, 4294967295, -1)
  /\ Sim.stored_magic (snd sample_negative_length) = UPDATE_MAGIC
  /\ existsb (Z.eqb 1) (stored_at (snd sample_negative_length) 60 708) = false.
Proof. vm_compute. repeat split. Qed.

(** The log file cannot be opened: [fopen] returns NULL, and NULL is
    what [fseek], [fread] and [fclose] are called with. *)
Lemma log_file_never_checked_witness :
  exists f r1 rd r3,
    stdio_of (snd (fst (sample_update [] [] [] (Some sample_busy)
                          (Some "recovery.log"%string)))) =
      [Called (fopen "recovery.log" "rb") f;
       Called (fseek f (to_signed (- (64 - sizeof_size_t - LOG_MAGIC_SIZE))) SEEK_END) r1;
       Called (fread f 1 (to_unsigned (64 - sizeof_size_t - LOG_MAGIC_SIZE))) rd;
       Called (fclose f) r3].
Proof.
  apply (log_file_never_checked Sim.device
           (Sim.boot None (Some (Sim.blank 16 64 12 [])) [] [])
           (snd (sample_update [] [] [] (Some sample_busy) (Some "recovery.log"%string)))
           (Some sample_payload) 70 2 2 16 (Some sample_busy) (Some sample_fail)
           "recovery.log"%string 0
           (snd (fst (sample_update [] [] [] (Some sample_busy)
                        (Some "recovery.log"%string))))
           (Some 1%nat) 64).
  - vm_compute. reflexivity.
  - vm_compute. left. reflexivity.
  - reflexivity.
Defined.

Example sample_update_null_file :
  stdio_of (snd (fst (sample_update [] [] [] (Some sample_busy)
                        (Some "recovery.log"%string))))
  = [Called (fopen "recovery.log" "rb") None;
     Called (fseek None (-52) SEEK_END) (-1);
     Called (fread None 1 52) (0, []);
     Called (fclose None) (-1)].
Proof. vm_compute. reflexivity. Qed.

(** C2.  [mtd_find_write_start] fails for the payload and returns -1:
    the run returns 0, and the header on the partition records
    0xFFFFFFFF as the payload offset while the payload starts at byte
    64.  Both the erase-align before the payload and the one that ends
    the second pass fail and return -1: the alignment test compares -1
    with -1, the run returns 0 with the magic in place, and the payload
    starts at byte 60, inside the first 64-byte block. *)
Lemma invalid_offset_recorded :
  (let run := sample_update [] [] [6%nat] (Some sample_busy) None in
   fst (fst run) = Done 0
   /\ nth_error (starts_of (snd (fst run))) 0 = Some (Sim.write_ctx, 64, -1)
   /\ Sim.stored_magic (snd run) = UPDATE_MAGIC
   /\ stored_at (snd run) 24 4 = le32 (to_unsigned (-1))
   /\ stored_at (snd run) 64 70 = sample_payload)
  /\ (let run := sample_update [] [] [3%nat; 16%nat] (Some sample_busy) None in
      fst (fst run) = Done 0
      /\ nth_error (erases_of (snd (fst run))) 0 = Some (Sim.write_ctx, 0, -1)
      /\ nth_error (erases_of (snd (fst run))) 4 = Some (Sim.write_ctx, 0, -1)
      /\ Sim.stored_magic (snd run) = UPDATE_MAGIC
      /\ stored_at (snd run) 60 70 = sample_payload).
Proof. vm_compute. repeat split. Qed.

(** C3.  The erase-align that follows the payload returns -1: the run
    goes on, writes both bitmaps and the final header, and returns 0.
    The erase-align that precedes the payload returns -1: the run goes
    on all the same, through every write of both passes, and only the
    final alignment test makes it return -1. *)
Lemma sentinel_not_detected :
  (let run := sample_update [] [] [5%nat] (Some sample_busy) None in
   fst (fst run) = Done 0
   /\ nth_error (erases_of (snd (fst run))) 1 = Some (Sim.write_ctx, 0, -1)
   /\ length (writes_of (snd (fst run))) = 5%nat)
  /\ (let run := sample_update [] [] [3%nat] (Some sample_busy) None in
      fst (fst run) = Done (-1)
      /\ nth_error (erases_of (snd (fst run))) 0 = Some (Sim.write_ctx, 0, -1)
      /\ length (writes_of (snd (fst run))) = 5%nat
      /\ Sim.stored_magic (snd run) = UPDATE_MAGIC).
Proof. vm_compute. repeat split. Qed.

(** C6.  No busy bitmap: the write for its region is issued with the
    null pointer and the full bitmap length. *)
Lemma null_bitmap_write_length :
  let run := sample_update [] [] [] None None in
  bitmap_length_of 16 2 2 = 8
  /\ nth_error (writes_of (snd (fst run))) 2 = Some (Sim.write_ctx, None, 8, -1)
  /\ fst (fst run) = Done (-1).
Proof. vm_compute. repeat split. Qed.

(** C7.  The write of the log block fails: the session is closed, the
    closed session is erase-aligned and closed again, and the function
    returns -1. *)
Lemma log_write_failure_aborts :
  let run := sample_update [] [sample_log] [25%nat] (Some sample_busy)
               (Some "recovery.log"%string) in
  fst (fst run) = Done (-1)
  /\ skipn 26 (calls_of (snd (fst run)))
     = [mtd_write_close Sim.write_ctx; mtd_erase_blocks Sim.write_ctx 0;
        mtd_write_close Sim.write_ctx]
  /\ closes_of (snd (fst run))
     = [(Sim.write_ctx, 0); (Sim.write_ctx, 0); (Sim.write_ctx, -1)]
  /\ nth_error (writes_of (snd (fst run))) 6
     = Some (Sim.write_ctx,
             Some (LOG_MAGIC ++ le32 52 ++ repeat 65 52), 64, -1).
Proof. vm_compute. repeat split. Qed.

(** C8, as stated, fails: for a negative depth, and for a product that
    leaves [int]. *)
Lemma bitmap_length_counterexample :
  bitmap_length_of (-9) 1 1 <> ceil_div (-9) 8 * 1 * 1
  /\ bitmap_length_of 32 32768 32768 <> ceil_div 32 8 * 32768 * 32768.
Proof. vm_compute. split; discriminate. Qed.

Lemma bitmap_length_formula_witness :
  bitmap_length_of 16 320 480 = ceil_div 16 8 * 320 * 480.
Proof. apply bitmap_length_formula; vm_compute; split; discriminate. Defined.

Example bitmap_length_depths :
  bitmap_length_of 1 320 480 = 153600 /\ bitmap_length_of 8 320 480 = 153600
  /\ bitmap_length_of 16 320 480 = 307200 /\ bitmap_length_of 24 320 480 = 460800
  /\ bitmap_length_of 32 320 480 = 614400.
Proof. vm_compute. repeat split. Qed.

End Runs.

(** ** More proof support *)

Ltac whole_trace :=
  repeat match goal with Ht : ?t = _ :: _ |- _ => is_var t; subst t end;
  repeat match goal with Ht : ?t = [] |- _ => is_var t; subst t end.

Lemma memcpy_to_length (buf buf' src : list Z) (off : Z) :
  memcpy_to buf off src = Some buf' -> length buf' = length buf.
Proof.
  unfold memcpy_to.
  destruct (0 <=? off) eqn:Hoff; [ | discriminate ].
  destruct (off + Z.of_nat (length src) <=? Z.of_nat (length buf)) eqn:Hfit; [ | discriminate ].
  cbn [andb]. intros [= <-]. apply Z.leb_le in Hoff, Hfit.
  rewrite !length_app, length_firstn, length_skipn. lia.
Qed.

Lemma memcpy_to_outside (buf src : list Z) (off : Z) :
  off < 0 \/ Z.of_nat (length buf) < off + Z.of_nat (length src) ->
  memcpy_to buf off src = None.
Proof.
  intros Hout. unfold memcpy_to.
  destruct (0 <=? off) eqn:Hoff; [ | reflexivity ].
  destruct (off + Z.of_nat (length src) <=? Z.of_nat (length buf)) eqn:Hfit; [ | reflexivity ].
  apply Z.leb_le in Hoff, Hfit. lia.
Qed.

Lemma memcpy_to_inside (buf buf' src : list Z) (off : Z) :
  memcpy_to buf off src = Some buf' ->
  0 <= off /\ off + Z.of_nat (length src) <= Z.of_nat (length buf).
Proof.
  unfold memcpy_to.
  destruct (0 <=? off) eqn:Hoff; [ | discriminate ].
  destruct (off + Z.of_nat (length src) <=? Z.of_nat (length buf)) eqn:Hfit; [ | discriminate ].
  intros _. apply Z.leb_le in Hoff, Hfit. split; assumption.
Qed.

Lemma memcpy_to_middle (buf buf' src : list Z) (off : Z) :
  memcpy_to buf off src = Some buf' ->
  firstn (length src) (skipn (Z.to_nat off) buf') = src.
Proof.
  intros Hm. apply memcpy_to_from in Hm. unfold memcpy_from in Hm.
  destruct (_ && _ && _) in Hm; [ | discriminate ].
  injection Hm as Hm. rewrite Nat2Z.id in Hm. exact Hm.
Qed.

Lemma to_unsigned_range (z : Z) : 0 <= to_unsigned z < 2 ^ 32.
Proof. unfold to_unsigned. apply Z.mod_pos_bound. lia. Qed.

Lemma log_block_layout {cfg : Config} (l0 l2 l3 buf data : list Z) (read : Z) :
  memcpy_to buf 0 LOG_MAGIC = Some l0 ->
  memcpy_to l0 (sizeof_size_t + LOG_MAGIC_SIZE) data = Some l2 ->
  memcpy_to l2 LOG_MAGIC_SIZE (le32 read) = Some l3 ->
  firstn (length LOG_MAGIC) l3 = LOG_MAGIC
  /\ firstn 4 (skipn (length LOG_MAGIC) l3) = le32 read
  /\ firstn (length data) (skipn (length LOG_MAGIC + 4) l3) = data.
Proof.
  unfold LOG_MAGIC_SIZE, sizeof_size_t. intros Hopt0 Hopt1 Hopt2.
  pose proof (memcpy_to_inside _ _ _ _ Hopt1) as I1.
  pose proof (memcpy_to_inside _ _ _ _ Hopt2) as I2.
  split; [ | split ].
  - pose proof (memcpy_to_prefix _ _ _ _ Hopt2) as P2.
    pose proof (memcpy_to_prefix _ _ _ _ Hopt1) as P1.
    pose proof (memcpy_to_middle _ _ _ _ Hopt0) as M0.
    rewrite Nat2Z.id in P2. rewrite P2.
    replace (length LOG_MAGIC) with (Nat.min (length LOG_MAGIC)
              (Z.to_nat (4 + Z.of_nat (length LOG_MAGIC)))) at 1 by lia.
    rewrite <- firstn_firstn, P1, firstn_firstn.
    replace (Nat.min _ _) with (length LOG_MAGIC) by lia. exact M0.
  - pose proof (memcpy_to_middle _ _ _ _ Hopt2) as M2.
    rewrite Nat2Z.id in M2. exact M2.
  - pose proof (memcpy_to_suffix _ _ _ _ (Z.of_nat (length LOG_MAGIC) + 4) Hopt2
                  ltac:(cbn [length le32]; lia)) as S2.
    pose proof (memcpy_to_middle _ _ _ _ Hopt1) as M1.
    replace (length LOG_MAGIC + 4)%nat
      with (Z.to_nat (Z.of_nat (length LOG_MAGIC) + 4)) by lia.
    rewrite S2.
    replace (Z.to_nat (Z.of_nat (length LOG_MAGIC) + 4))
      with (Z.to_nat (4 + Z.of_nat (length LOG_MAGIC))) by lia.
    exact M1.
Qed.

(** ** The boot control message: more facts *)

Section MoreBootMessageFacts.
Context {cfg : Config} {W : Type} (h : handler W).

(** X1.  [get_bootloader_message] returns 0 or -1 and nothing else, and
    on every path that returns -1 (partition not found, page size not
    reported, read session not opened, read not complete) the caller's
    record is left as it was. *)
Theorem get_failure_leaves_out (w w' : W) (out out' : bootloader_message) (v : Z)
    (tr : list event) :
  exec h (get_bootloader_message out) w = (Done (v, out'), tr, w') ->
  v = 0 \/ (v = -1 /\ out' = out).
Proof.
  intros H. unfold get_bootloader_message in H. exec_all H.
  all: try discriminate.
  all: injection Hout as <- <-; auto.
Qed.

(** X2.  When [get_bootloader_message] returns 0, it made one read, for
    the three pages, and that read returned as many bytes as it was
    asked for; the record fits in the region read from the start of the
    second page, and the record handed back is made of the
    [sizeof *out] bytes found there. *)
Theorem get_returns_command_page (w w' : W) (out out' : bootloader_message)
    (tr : list event) :
  exec h (get_bootloader_message out) w = (Done (0, out'), tr, w') ->
  exists write_size region,
    page_size_in tr = Some write_size
    /\ region_read tr = Some region
    /\ Z.of_nat (length region) = to_signed (write_size * MISC_PAGES)
    /\ (exists ctx bytes,
          reads_of tr = [(ctx, Z.of_nat (length region),
                          (Z.of_nat (length region), bytes))])
    /\ to_unsigned write_size + sizeof_bootloader_message <= Z.of_nat (length region)
    /\ out' = firstn (Z.to_nat sizeof_bootloader_message)
                (skipn (Z.to_nat (to_unsigned write_size)) region).
Proof.
  intros H. unfold get_bootloader_message in H. exec_all H.
  all: try discriminate.
  injection Hout as <-. subst.
  repeat match goal with Ht : negb (_ =? _) = false |- _ => passed Ht end. subst.
  match goal with Ht : (to_signed _ <? 0) = false |- _ =>
    destruct (three_pages_length _ Ht) as [Hsame Hpos] end.
  unfold page_size_in, region_read. cbn. rewrite Hsame.
  eexists _, _. split; [reflexivity | split; [reflexivity | ]].
  unfold memcpy_from, MISC_COMMAND_PAGE in Hopt. rewrite Z.mul_1_r in Hopt.
  rewrite fit_length in *. rewrite Z2Nat.id in * by lia.
  destruct (0 <=? to_unsigned z0) eqn:H1; [ | discriminate ].
  destruct (0 <=? sizeof_bootloader_message) eqn:H2; [ | discriminate ].
  destruct (to_unsigned z0 + sizeof_bootloader_message <=? to_signed (z0 * MISC_PAGES)) eqn:H3;
    [ | discriminate ].
  cbn in Hopt. injection Hopt as <-. apply Z.leb_le in H3.
  split; [reflexivity | ].
  split; [eexists _, _; reflexivity | ].
  split; [exact H3 | reflexivity].
Qed.
(** X3.  [get_bootloader_message] never opens a write session, writes
    or erases: every call it makes is a partition lookup, a partition
    query or a call on a read session.  Unless it runs into undefined
    behaviour, it closes the read session it opened, once. *)
Theorem get_only_reads (w w' : W) (out : bootloader_message)
    (o : outcome (Z * bootloader_message)) (tr : list event) :
  exec h (get_bootloader_message out) w = (o, tr, w') ->
  forallb read_side (calls_of tr) = true
  /\ (o <> Undefined -> read_closes_of tr = opened (read_opens_of tr)).
Proof.
  intros H. unfold get_bootloader_message in H. exec_all H.
  all: subst; cbn; split; [reflexivity | ]; intros Hdef; try reflexivity; congruence.
Qed.

(** X4.  When the page size reported for the partition is so small that
    the record does not fit in the two pages after the first
    ([2 * write_size < sizeof *out]), a complete read is followed by a
    [memcpy] that reads past the end of the local buffer. *)
Theorem get_record_too_large (w w' : W) (out : bootloader_message)
    (o : outcome (Z * bootloader_message))
    (tr : list event) (write_size : Z) (ctx : ptr) (len : Z) (bytes : list Z) :
  exec h (get_bootloader_message out) w = (o, tr, w') ->
  page_size_in tr = Some write_size ->
  In (ctx, len, (len, bytes)) (reads_of tr) ->
  0 <= write_size -> 3 * write_size < 2 ^ 31 ->
  2 * write_size < sizeof_bootloader_message ->
  o = Undefined.
Proof.
  intros H Hpage Hin Hws Hsmall Hbig. unfold get_bootloader_message in H. exec_all H.
  all: subst; cbn in Hin; try contradiction.
  all: destruct Hin as [Hin | []]; injection Hin as _ Hlen Hr _.
  all: repeat match goal with Ht : negb (_ =? _) = false |- _ => passed Ht end; subst.
  all: unfold page_size_in in Hpage; cbn in Hpage; injection Hpage as ->.
  all: try reflexivity.
  all: exfalso.
  all: assert (Hsize : to_signed (write_size * MISC_PAGES) = 3 * write_size)
         by (unfold MISC_PAGES; rewrite to_signed_small; lia).
  all: rewrite Hsize in *.
  all: try match goal with Ht : negb (?a =? ?b) = true |- _ =>
             apply negb_true_iff, Z.eqb_neq in Ht; apply Ht;
             apply to_unsigned_small; lia
           end.
  all: match goal with Hm : memcpy_from _ _ _ = Some _ |- _ =>
         unfold memcpy_from, MISC_COMMAND_PAGE in Hm;
         rewrite Z.mul_1_r, fit_length, to_unsigned_small in Hm by lia
       end.
  all: match goal with Hm : (if ?b then _ else _) = Some _ |- _ =>
         destruct b eqn:Hb; [ | discriminate Hm]
       end.
  all: apply andb_prop in Hb; destruct Hb as [_ Hb]; apply Z.leb_le in Hb; lia.
Qed.

(** X5.  When the read of the three pages is not complete,
    [set_bootloader_message] returns -1 without opening a write
    session or writing anything, after closing the read session. *)
Theorem set_short_read_writes_nothing (w w' : W) (in_ : bootloader_message)
    (o : outcome Z) (tr : list event) (ctx : ptr) (len r : Z) (bytes : list Z) :
  exec h (set_bootloader_message in_) w = (o, tr, w') ->
  In (ctx, len, (r, bytes)) (reads_of tr) ->
  r <> len ->
  o = Done (-1) /\ opens_of tr = [] /\ writes_of tr = [] /\ read_closes_of tr = [ctx].
Proof.
  intros H Hin Hshort. unfold set_bootloader_message in H. exec_all H.
  all: subst; cbn in Hin; try contradiction.
  all: destruct Hin as [Hin | []]; injection Hin as <- <- <- <-.
  all: try (cbn; repeat split; reflexivity).
  all: exfalso; apply Hshort.
  all: repeat match goal with Ht : negb (_ =? _) = false |- _ => passed Ht end; subst.
  all: match goal with Ht : (to_signed _ <? 0) = false |- _ =>
         destruct (three_pages_length _ Ht) as [Hsame Hpos] end.
  all: symmetry; exact Hsame.
Qed.

(** X6.  Whatever [set_bootloader_message] writes to the partition is
    the region it has just read, of the same length, with the bytes of
    the record placed at the start of the second page: the bytes before
    the record and the bytes after it are written back as they were
    read. *)
Theorem set_writes_region_with_record (w w' : W) (in_ : bootloader_message)
    (o : outcome Z) (tr : list event) (c : ptr) (data : option (list Z)) (len r : Z) :
  exec h (set_bootloader_message in_) w = (o, tr, w') ->
  In (c, data, len, r) (writes_of tr) ->
  exists write_size old new,
    page_size_in tr = Some write_size
    /\ region_read tr = Some old
    /\ data = Some new
    /\ len = Z.of_nat (length new)
    /\ length new = length old
    /\ let at_ := Z.to_nat (to_unsigned write_size) in
       let n := length (fit sizeof_bootloader_message in_) in
       firstn at_ new = firstn at_ old
       /\ firstn n (skipn at_ new) = fit sizeof_bootloader_message in_
       /\ skipn (at_ + n) new = skipn (at_ + n) old.
Proof.
  intros H Hin. unfold set_bootloader_message in H. exec_all H.
  all: subst; cbn in Hin; try contradiction.
  all: destruct Hin as [Hin | []]; injection Hin as <- <- <- <-.
  all: repeat match goal with Ht : negb (_ =? _) = false |- _ => passed Ht end; subst.
  all: match goal with Ht : (to_signed _ <? 0) = false |- _ =>
         destruct (three_pages_length _ Ht) as [Hsame Hpos] end.
  all: unfold page_size_in, region_read; cbn; rewrite Hsame.
  all: match goal with Hm : memcpy_to _ _ _ = Some _ |- _ =>
         unfold MISC_COMMAND_PAGE in Hm; rewrite Z.mul_1_r in Hm
       end.
  all: match goal with Hm : memcpy_to _ ?off ?src = Some _ |- _ =>
         pose proof (memcpy_to_length _ _ _ _ Hm) as Hlen;
         pose proof (memcpy_to_prefix _ _ _ _ Hm) as Hpre;
         pose proof (memcpy_to_from _ _ _ _ Hm) as Hmid;
         pose proof (memcpy_to_suffix _ _ _ _ (off + Z.of_nat (length src))
                       Hm ltac:(lia)) as Hsuf
       end.
  all: eexists _, _, _; split; [reflexivity | split; [reflexivity | split; [reflexivity | ]]].
  all: rewrite fit_length in Hlen.
  all: split; [rewrite Hlen; lia | split; [rewrite Hlen, fit_length; reflexivity | ]].
  all: cbn zeta; split; [exact Hpre | split].
  all: try (unfold memcpy_from in Hmid;
            destruct (_ && _ && _) in Hmid; [ | discriminate ];
            injection Hmid as Hmid; rewrite Nat2Z.id in Hmid; exact Hmid).
  all: match type of Hsuf with
       | skipn (Z.to_nat (?off + ?n)) _ = _ =>
           pose proof (to_unsigned_range z0) as Hr;
           replace (Z.to_nat off + _)%nat with (Z.to_nat (off + n)) by lia;
           exact Hsuf
       end.
Qed.

(** X7.  When [set_bootloader_message] returns 0, it has made exactly
    one write, the device took all of its bytes, and the write session
    was closed once with result 0. *)
Theorem set_success_is_durable (w w' : W) (in_ : bootloader_message) (tr : list event) :
  exec h (set_bootloader_message in_) w = (Done 0, tr, w') ->
  exists c new,
    writes_of tr = [(c, Some new, Z.of_nat (length new), Z.of_nat (length new))]
    /\ closes_of tr = [(c, 0)]
    /\ opens_of tr <> [].
Proof.
  intros H. unfold set_bootloader_message in H. exec_all H.
  all: try discriminate.
  subst.
  repeat match goal with Ht : negb (_ =? _) = false |- _ => passed Ht end; subst.
  match goal with Ht : (to_signed _ <? 0) = false |- _ =>
    destruct (three_pages_length _ Ht) as [Hsame Hpos] end.
  match goal with Hm : memcpy_to _ _ _ = Some ?new |- _ =>
    pose proof (memcpy_to_length _ _ _ _ Hm) as Hlen;
    rewrite fit_length in Hlen;
    assert (Hsize : to_signed (z0 * MISC_PAGES) = Z.of_nat (length new))
      by (rewrite Hlen; lia)
  end.
  cbn. rewrite Hsame, Hsize.
  eexists _, _. split; [reflexivity | split; [reflexivity | discriminate]].
Qed.

(** X8.  On every return of [set_bootloader_message], with 0 or with
    -1, each session that was opened, for reading or for writing, has
    been closed exactly once, in the order of opening. *)
Theorem set_closes_its_sessions (w w' : W) (in_ : bootloader_message)
    (v : Z) (tr : list event) :
  exec h (set_bootloader_message in_) w = (Done v, tr, w') ->
  (v = 0 \/ v = -1)
  /\ read_closes_of tr = opened (read_opens_of tr)
  /\ map fst (closes_of tr) = opened (opens_of tr).
Proof.
  intros H. unfold set_bootloader_message in H. exec_all H.
  all: try discriminate.
  all: injection Hout as <-; subst; cbn; repeat split; auto.
Qed.

(** X9.  When the record does not fit in the two pages after the first,
    a complete read is followed by a [memcpy] that writes past the end
    of the local buffer, before any write session is opened. *)
Theorem set_record_too_large (w w' : W) (in_ : bootloader_message) (o : outcome Z)
    (tr : list event) (write_size : Z) (ctx : ptr) (len : Z) (bytes : list Z) :
  exec h (set_bootloader_message in_) w = (o, tr, w') ->
  page_size_in tr = Some write_size ->
  In (ctx, len, (len, bytes)) (reads_of tr) ->
  0 <= write_size -> 3 * write_size < 2 ^ 31 ->
  2 * write_size < sizeof_bootloader_message ->
  o = Undefined /\ opens_of tr = [].
Proof.
  intros H Hpage Hin Hws Hsmall Hbig. unfold set_bootloader_message in H. exec_all H.
  all: subst; cbn in Hin; try contradiction.
  all: destruct Hin as [Hin | []]; injection Hin as _ Hlen Hr _.
  all: repeat match goal with Ht : negb (_ =? _) = false |- _ => passed Ht end; subst.
  all: unfold page_size_in in Hpage; cbn in Hpage; injection Hpage as ->.
  all: try (split; reflexivity).
  all: exfalso.
  all: assert (Hsize : to_signed (write_size * MISC_PAGES) = 3 * write_size)
         by (unfold MISC_PAGES; rewrite to_signed_small; lia).
  all: rewrite Hsize in *.
  all: try match goal with Ht : negb (?a =? ?b) = true |- _ =>
             apply negb_true_iff, Z.eqb_neq in Ht; apply Ht;
             apply to_unsigned_small; lia
           end.
  all: match goal with Hm : memcpy_to _ _ _ = Some _ |- _ =>
         rewrite memcpy_to_outside in Hm; [discriminate Hm | ]
       end.
  all: right; rewrite !fit_length; unfold MISC_COMMAND_PAGE.
  all: rewrite Z.mul_1_r, to_unsigned_small by lia; lia.
Qed.

End MoreBootMessageFacts.

(** ** The update image: more facts *)

Section MoreUpdateImageFacts.
Context {cfg : Config} {W : Type} (h : handler W).


(** X12.  When the write of the zero header does not take all of its
    bytes, the function returns -1 at once: nothing else is written,
    no block is erased, and the one session opened is closed. *)
Theorem zero_header_short_write (w w' : W) (update : option (list Z)) (update_length : Z)
    (bitmap_width bitmap_height bitmap_bpp : Z) (busy_bitmap fail_bitmap : option (list Z))
    (log_filename : option string) (o : outcome Z) (tr : list event)
    (c : ptr) (data : option (list Z)) (len r : Z)
    (rest : list (ptr * option (list Z) * Z * Z)) :
  exec h (write_update_for_bootloader update update_length bitmap_width bitmap_height
            bitmap_bpp busy_bitmap fail_bitmap log_filename) w = (o, tr, w') ->
  writes_of tr = (c, data, len, r) :: rest ->
  r <> header_size ->
  o = Done (-1) /\ rest = [] /\ erases_of tr = [] /\ map fst (closes_of tr) = [c]
  /\ length (opens_of tr) = 1%nat.
Proof.
  intros H Hw Hshort. unfold write_update_for_bootloader in H. exec_all H.
  all: whole_trace; cbn in Hw; try discriminate Hw.
  all: injection Hw as <- <- <- <- <-.
  all: try (passed Htest1; contradiction).
  subst. cbn. repeat split.
Qed.

(** X13.  [write_update_for_bootloader] looks up one partition, by the
    name [CACHE_NAME], and every session it opens and every query it
    makes is on the partition that lookup returned; it opens at most
    two write sessions. *)
Theorem update_stays_on_cache (w w' : W) (update : option (list Z)) (update_length : Z)
    (bitmap_width bitmap_height bitmap_bpp : Z) (busy_bitmap fail_bitmap : option (list Z))
    (log_filename : option string) (o : outcome Z) (tr : list event) :
  exec h (write_update_for_bootloader update update_length bitmap_width bitmap_height
            bitmap_bpp busy_bitmap fail_bitmap log_filename) w = (o, tr, w') ->
  exists part,
    finds_of tr = [(CACHE_NAME, part)]
    /\ Forall (eq part) (partitions_used tr)
    /\ (length (opens_of tr) <= 2)%nat.
Proof.
  intros H. unfold write_update_for_bootloader in H. exec_all H.
  all: whole_trace; eexists; cbn; split; [reflexivity | split; [ | lia]].
  all: repeat constructor.
Qed.

(** X14.  When [write_update_for_bootloader] returns 0, the header it
    wrote at the start of the second session holds, field by field: the
    magic, [UPDATE_VERSION], the header size, the three offsets that
    [mtd_find_write_start] returned for the positions at which the
    payload and the two bitmaps were started, the payload length, the
    bitmap geometry, and for each bitmap the computed length, or 0 for a
    NULL bitmap. *)
Theorem final_header_contents (w w' : W) (update : option (list Z)) (update_length : Z)
    (bitmap_width bitmap_height bitmap_bpp : Z) (busy_bitmap fail_bitmap : option (list Z))
    (log_filename : option string) (tr : list event) :
  exec h (write_update_for_bootloader update update_length bitmap_width bitmap_height
            bitmap_bpp busy_bitmap fail_bitmap log_filename) w = (Done 0, tr, w') ->
  let bitmap_length := bitmap_length_of bitmap_bpp bitmap_width bitmap_height in
  exists c1 c2 pos_image pos_busy pos_fail p_image p_busy p_fail s1 s2,
    sessions_of tr = [s1; s2]
    /\ (exists reserve last,
          erases_of s1 = reserve ++ [(c1, 0, pos_image); (c1, 0, pos_busy);
                                     (c1, 0, pos_fail); (c1, 0, last)])
    /\ starts_of tr = [(c1, pos_image, p_image); (c1, pos_busy, p_busy);
                       (c1, pos_fail, p_fail)]
    /\ nth_error (writes_of s2) 0
       = Some (c2,
               Some (header_bytes
                       (mk_header UPDATE_MAGIC (to_unsigned UPDATE_VERSION)
                          (to_unsigned header_size)
                          (to_unsigned p_image) (to_unsigned update_length)
                          (to_unsigned bitmap_width) (to_unsigned bitmap_height)
                          (to_unsigned bitmap_bpp)
                          (to_unsigned p_busy)
                          (to_unsigned (if is_null busy_bitmap then 0 else bitmap_length))
                          (to_unsigned p_fail)
                          (to_unsigned (if is_null fail_bitmap then 0 else bitmap_length)))),
               to_unsigned header_size, header_size).
Proof.
  intros H bitmap_length. unfold write_update_for_bootloader in H. exec_all H.
  all: try discriminate.
  all: whole_trace.
  all: repeat match goal with Ht : negb (_ =? _) = false |- _ => passed Ht end; subst.
  all: cbn [sessions_of split_sessions snd starts_of app].
  all: do 10 eexists.
  all: (split; [reflexivity | split; [ | split; [reflexivity | ]]]).
  all: cbn [erases_of writes_of app nth_error].
  all: try reflexivity.
  all: first [ eexists [], _; reflexivity | eexists [_], _; reflexivity ].
Qed.

(** X15.  With a log file name and a reported erase size that is
    positive but smaller than [sizeof(size_t) + LOG_MAGIC_SIZE], the
    log buffer is allocated with [erase_size] bytes and then written
    past its end. *)
Theorem small_erase_size_overruns (w w' : W) (update : option (list Z)) (update_length : Z)
    (bitmap_width bitmap_height bitmap_bpp : Z) (busy_bitmap fail_bitmap : option (list Z))
    (log_filename : option string) (o : outcome Z) (tr : list event)
    (part : ptr) (erase_size : Z) :
  exec h (write_update_for_bootloader update update_length bitmap_width bitmap_height
            bitmap_bpp busy_bitmap fail_bitmap log_filename) w = (o, tr, w') ->
  In (part, erase_size_field, (0, erase_size)) (infos_of tr) ->
  0 < erase_size < sizeof_size_t + LOG_MAGIC_SIZE ->
  o = Undefined.
Proof.
  intros H Hin Hes. unfold write_update_for_bootloader in H. exec_all H.
  all: whole_trace; cbn [infos_of app In] in Hin; try contradiction.
  all: destruct Hin as [Hin | []]; injection Hin as -> -> ->.
  all: try assumption.
  all: try (cbn in Htest10; discriminate Htest10).
  all: try (apply Z.ltb_ge in Htest11; lia).
  all: exfalso.
  all: repeat match goal with
         | Hm : memcpy_to _ _ _ = Some _ |- _ =>
             pose proof (memcpy_to_length _ _ _ _ Hm);
             pose proof (memcpy_to_inside _ _ _ _ Hm); clear Hm
         end.
  all: rewrite ?fit_length in *; cbn [length le32] in *; unfold sizeof_size_t in *; lia.
Qed.

(** X16.  The block written after the final header, when there is one,
    is the log block: [erase_size] bytes made of [LOG_MAGIC], the count
    returned by [fread] as a 32-bit little-endian integer, and then the
    bytes [fread] delivered; for an erase size in the range of
    [size_t], [fread] was asked for
    [erase_size - sizeof(size_t) - LOG_MAGIC_SIZE] bytes. *)
Theorem log_block_contents (w w' : W) (update : option (list Z)) (update_length : Z)
    (bitmap_width bitmap_height bitmap_bpp : Z) (busy_bitmap fail_bitmap : option (list Z))
    (log_filename : option string) (o : outcome Z) (tr : list event)
    (s1 s2 : list event) (rest : list (list event))
    (c : ptr) (data : option (list Z)) (len r : Z) :
  exec h (write_update_for_bootloader update update_length bitmap_width bitmap_height
            bitmap_bpp busy_bitmap fail_bitmap log_filename) w = (o, tr, w') ->
  sessions_of tr = s1 :: s2 :: rest ->
  nth_error (writes_of s2) 1 = Some (c, data, len, r) ->
  exists part erase_size f count read bytes log,
    infos_of tr = [(part, erase_size_field, (0, erase_size))]
    /\ freads_of tr = [(f, 1, count, (read, bytes))]
    /\ data = Some log /\ len = erase_size
    /\ Z.of_nat (length log) = erase_size
    /\ sizeof_size_t + LOG_MAGIC_SIZE + Z.of_nat (length (fit read bytes)) <= erase_size
    /\ (erase_size < 2 ^ 32 -> count = erase_size - sizeof_size_t - LOG_MAGIC_SIZE)
    /\ firstn (length LOG_MAGIC) log = LOG_MAGIC
    /\ firstn 4 (skipn (length LOG_MAGIC) log) = le32 read
    /\ firstn (length (fit read bytes)) (skipn (length LOG_MAGIC + 4) log) = fit read bytes.
Proof.
  intros H Hs Hw. unfold write_update_for_bootloader in H. exec_all H.
  all: whole_trace; cbn [sessions_of split_sessions snd] in Hs; try discriminate Hs.
  all: injection Hs as <- <- <-.
  all: cbn [writes_of app nth_error] in Hw; try discriminate Hw.
  all: injection Hw as <- <- <- <-.
  all: passed Htest10; subst.
  all: apply Z.ltb_lt in Htest11.
  all: pose proof (memcpy_to_length _ _ _ _ Hopt0) as L0;
       pose proof (memcpy_to_length _ _ _ _ Hopt1) as L1;
       pose proof (memcpy_to_length _ _ _ _ Hopt2) as L2;
       pose proof (memcpy_to_inside _ _ _ _ Hopt1) as I1;
       pose proof (memcpy_to_inside _ _ _ _ Hopt2) as I2;
       rewrite fit_length in L0.
  all: cbn [infos_of freads_of app]; do 7 eexists.
  all: (split; [reflexivity | split; [reflexivity | split; [reflexivity
         | split; [reflexivity | ]]]]).
  all: (split; [unfold LOG_MAGIC_SIZE, sizeof_size_t in *; lia
              | split; [unfold LOG_MAGIC_SIZE, sizeof_size_t in *; lia | split]]).
  all: try (intros Hlt; apply to_unsigned_small;
            unfold LOG_MAGIC_SIZE, sizeof_size_t in *; lia).
  all: exact (log_block_layout _ _ _ _ _ _ Hopt0 Hopt1 Hopt2).
Qed.

End MoreUpdateImageFacts.

(** ** The hex dump: facts *)

Lemma skipn_nth_error {A : Type} (l : list A) (n : nat) (x : A) :
  nth_error l n = Some x -> skipn n l = x :: skipn (S n) l.
Proof.
  revert l. induction n as [ | n IH]; intros [ | y l] Hn; try discriminate.
  - injection Hn as ->. reflexivity.
  - cbn in Hn. apply IH in Hn. exact Hn.
Qed.

Lemma nth_error_inside {A : Type} (l : list A) (n : nat) :
  (n < length l)%nat -> exists x, nth_error l n = Some x.
Proof.
  intros Hn. destruct (nth_error l n) eqn:E; [eauto | ].
  apply nth_error_None in E. lia.
Qed.

Lemma dump_row_spec (data : list Z) (len : Z) (fuel : nat) (pos : Z) :
  0 <= pos <= len -> len <= Z.of_nat (length data) ->
  len - pos < Z.of_nat fuel ->
  exists row,
    dump_row fuel data len pos = Some (Done (row, row_end len pos))
    /\ bytes_of row = firstn (Z.to_nat (row_end len pos - pos)) (skipn (Z.to_nat pos) data)
    /\ lines_of row = 0%nat /\ heads_of row = [].
Proof.
  revert pos. induction fuel as [ | fuel IH]; intros pos Hpos Hlen Hfuel; [lia | ].
  cbn [dump_row]. unfold row_end.
  rewrite Z.rem_mod_nonneg by lia.
  destruct (pos <? len) eqn:Hlt; cbn [andb].
  - apply Z.ltb_lt in Hlt. destruct (pos mod 24 =? 0) eqn:Hm; cbn [negb].
    + apply Z.eqb_eq in Hm.
      assert (Hz : (- pos) mod 24 = 0) by (Z.div_mod_to_equations; lia).
      rewrite Hz, Z.add_0_r, Z.min_r by lia.
      exists []. rewrite Z.sub_diag. repeat split.
    + apply Z.eqb_neq in Hm.
      destruct (nth_error_inside data (Z.to_nat pos) ltac:(lia)) as [b Hb].
      rewrite Hb.
      destruct (IH (pos + 1) ltac:(lia) Hlen ltac:(lia)) as (row & Hrow & Hbytes & Hl & Hh).
      rewrite Hrow.
      assert (Hend : row_end len (pos + 1) = Z.min len (pos + (- pos) mod 24))
        by (unfold row_end; Z.div_mod_to_equations; lia).
      rewrite <- Hend. eexists. split; [reflexivity | ].
      assert (Hge : pos + 1 <= row_end len (pos + 1))
        by (unfold row_end; Z.div_mod_to_equations; lia).
      cbn [bytes_of flat_map app]. fold (bytes_of row). rewrite Hbytes.
      rewrite (skipn_nth_error _ _ _ Hb).
      replace (Z.to_nat (row_end len (pos + 1) - pos))
        with (S (Z.to_nat (row_end len (pos + 1) - (pos + 1)))) by lia.
      cbn [firstn]. replace (Z.to_nat (pos + 1)) with (S (Z.to_nat pos)) by lia.
      repeat split; assumption.
  - apply Z.ltb_ge in Hlt. assert (pos = len) by lia. subst pos.
    rewrite Z.min_l by (Z.div_mod_to_equations; lia).
    exists []. rewrite Z.sub_diag. repeat split.
Qed.

Lemma firstn_plus {A : Type} (a b : nat) (l : list A) :
  firstn (a + b) l = firstn a l ++ firstn b (skipn a l).
Proof.
  revert l. induction a as [ | a IH]; intros l; [reflexivity | ].
  destruct l as [ | x l]; cbn.
  - rewrite firstn_nil. reflexivity.
  - rewrite IH. reflexivity.
Qed.

Lemma bytes_of_app (a b : list printed) : bytes_of (a ++ b) = bytes_of a ++ bytes_of b.
Proof. unfold bytes_of. apply flat_map_app. Qed.

Lemma heads_of_app (a b : list printed) : heads_of (a ++ b) = heads_of a ++ heads_of b.
Proof. unfold heads_of. apply flat_map_app. Qed.

Lemma lines_of_app (a b : list printed) : lines_of (a ++ b) = (lines_of a + lines_of b)%nat.
Proof. unfold lines_of. rewrite filter_app, length_app. reflexivity. Qed.

Lemma dump_rows_spec (data : list Z) (len : Z) (fuel : nat) (pos : Z) :
  0 <= pos <= len -> len <= Z.of_nat (length data) ->
  pos mod 24 = 0 \/ pos = len ->
  len - pos < Z.of_nat fuel ->
  exists out,
    dump_rows fuel data len pos = Some (Done out)
    /\ bytes_of out = firstn (Z.to_nat (len - pos)) (skipn (Z.to_nat pos) data)
    /\ Z.of_nat (lines_of out) = ceil_div (len - pos) 24
    /\ heads_of out = map (fun k => pos + 24 * Z.of_nat k) (seq 0 (lines_of out)).
Proof.
  revert pos. induction fuel as [ | fuel IH]; intros pos Hpos Hlen Hrow Hfuel; [lia | ].
  cbn [dump_rows].
  destruct (pos <? len) eqn:Hlt.
  - apply Z.ltb_lt in Hlt. destruct Hrow as [Hrow | Hrow]; [ | lia].
    destruct (nth_error_inside data (Z.to_nat pos) ltac:(lia)) as [b Hb].
    rewrite Hb.
    destruct (dump_row_spec data len (S fuel) (pos + 1) ltac:(lia) Hlen ltac:(lia))
      as (row & Hr & Hrb & Hrl & Hrh).
    rewrite Hr.
    assert (Hend : row_end len (pos + 1) = Z.min len (pos + 24))
      by (unfold row_end; Z.div_mod_to_equations; lia).
    rewrite Hend in *. set (pos' := Z.min len (pos + 24)) in *.
    assert (Hp' : pos + 1 <= pos' <= len) by (subst pos'; lia).
    destruct (IH pos' ltac:(lia) Hlen
                ltac:(subst pos'; Z.div_mod_to_equations; lia) ltac:(lia))
      as (out & Ho & Hob & Hol & Hoh).
    rewrite Ho. eexists. split; [reflexivity | ].
    change (printf "%05x: %02x" [pos; b] :: row ++ printf "\n" [] :: out)
      with ([printf "%05x: %02x" [pos; b]] ++ row ++ [printf "\n" []] ++ out).
    assert (Hn : lines_of ([printf "%05x: %02x" [pos; b]] ++ row ++ [printf "\n" []] ++ out)
                 = S (lines_of out)).
    { rewrite !lines_of_app, Hrl. reflexivity. }
    split; [ | split ].
    + rewrite !bytes_of_app, Hrb, Hob.
      change (bytes_of [printf "%05x: %02x" [pos; b]]) with [b].
      change (bytes_of [printf "\n" []]) with (@nil Z). cbn [app].
      rewrite (skipn_nth_error _ _ _ Hb).
      replace (Z.to_nat (len - pos)) with (S (Z.to_nat (len - (pos + 1)))) by lia.
      cbn [firstn]. f_equal.
      replace (S (Z.to_nat pos)) with (Z.to_nat (pos + 1)) by lia.
      replace (Z.to_nat (len - (pos + 1)))
        with (Z.to_nat (pos' - (pos + 1)) + Z.to_nat (len - pos'))%nat by lia.
      rewrite firstn_plus. f_equal. rewrite skipn_skipn. do 2 f_equal. lia.
    + rewrite Hn, Nat2Z.inj_succ, Hol.
      unfold ceil_div. subst pos'. Z.div_mod_to_equations. lia.
    + rewrite Hn, !heads_of_app, Hrh, Hoh.
      change (heads_of [printf "%05x: %02x" [pos; b]]) with [pos].
      change (heads_of [printf "\n" []]) with (@nil Z). cbn [app].
      cbn [seq map]. f_equal; [lia | ].
      rewrite <- seq_shift, map_map.
      destruct (lines_of out) as [ | n] eqn:Hlo; [reflexivity | ].
      assert (Hfull : pos' = pos + 24).
      { destruct (Z.eq_dec pos' len) as [He | Hne]; [ | subst pos'; lia].
        rewrite He, Z.sub_diag in Hol. unfold ceil_div in Hol. cbn in Hol. lia. }
      apply map_ext. intros k. lia.
  - apply Z.ltb_ge in Hlt. assert (pos = len) by lia. subst pos.
    exists []. rewrite Z.sub_diag. repeat split.
Qed.

(** X17.  Dumping [len] bytes of an array that holds them: the dump returns;
    it shows the first [len] bytes of [data] in order, on
    [ceil(len / 24)] lines, and the lines start at positions 0, 24,
    48, ... *)
Theorem dump_data_shows_the_bytes (data : list Z) (len : Z) :
  0 <= len <= Z.of_nat (length data) ->
  exists out,
    dump_data data len = Some (Done out)
    /\ bytes_of out = firstn (Z.to_nat len) data
    /\ Z.of_nat (lines_of out) = ceil_div len 24
    /\ heads_of out = map (fun k => 24 * Z.of_nat k) (seq 0 (lines_of out)).
Proof.
  intros Hlen. unfold dump_data.
  destruct (dump_rows_spec data len (S (Z.to_nat len)) 0
              ltac:(lia) ltac:(lia) ltac:(left; reflexivity) ltac:(lia))
    as (out & Ho & Hb & Hl & Hh).
  exists out. rewrite Z.sub_0_r in *. cbn [Z.to_nat skipn] in Hb.
  repeat split; assumption.
Qed.

Lemma dump_data_shows_the_bytes_witness :
  exists out,
    dump_data dump_sample 50 = Some (Done out)
    /\ bytes_of out = firstn (Z.to_nat 50) dump_sample
    /\ Z.of_nat (lines_of out) = ceil_div 50 24
    /\ heads_of out = map (fun k => 24 * Z.of_nat k) (seq 0 (lines_of out)).
Proof. apply (dump_data_shows_the_bytes dump_sample 50). vm_compute. split; discriminate. Defined.

Example dump_sample_lines :
  option_map (fun o => match o with
                      | Done out => (heads_of out, lines_of out)
                      | Undefined => ([], 0%nat)
                      end)
    (dump_data dump_sample 50) = Some ([0; 24; 48], 3%nat).
Proof. vm_compute. reflexivity. Qed.

Lemma dump_row_overrun (data : list Z) (len : Z) (fuel : nat) (pos : Z) :
  0 <= pos <= Z.of_nat (length data) -> Z.of_nat (length data) < len ->
  Z.of_nat (length data) - pos < Z.of_nat fuel ->
  dump_row fuel data len pos = Some Undefined
  \/ exists row pos',
       dump_row fuel data len pos = Some (Done (row, pos'))
       /\ pos <= pos' <= Z.of_nat (length data) /\ pos' mod 24 = 0.
Proof.
  revert pos. induction fuel as [ | fuel IH]; intros pos Hpos Hlen Hfuel; [lia | ].
  cbn [dump_row]. rewrite Z.rem_mod_nonneg by lia.
  replace (pos <? len) with true by (symmetry; apply Z.ltb_lt; lia). cbn [andb].
  destruct (pos mod 24 =? 0) eqn:Hm; cbn [negb].
  - apply Z.eqb_eq in Hm. right. eexists _, _. split; [reflexivity | lia].
  - destruct (nth_error data (Z.to_nat pos)) as [b | ] eqn:Hb; [ | left; reflexivity].
    assert (Hin : (Z.to_nat pos < length data)%nat)
      by (apply nth_error_Some; congruence).
    destruct (IH (pos + 1) ltac:(lia) Hlen ltac:(lia))
      as [Hu | (row & pos' & Hr & Hp & Hmod)]; rewrite ?Hu, ?Hr.
    + left. reflexivity.
    + right. eexists _, _. split; [reflexivity | lia].
Qed.

Lemma dump_rows_overrun (data : list Z) (len : Z) (fuel : nat) (pos : Z) :
  0 <= pos <= Z.of_nat (length data) -> Z.of_nat (length data) < len ->
  Z.of_nat (length data) - pos < Z.of_nat fuel ->
  dump_rows fuel data len pos = Some Undefined.
Proof.
  revert pos. induction fuel as [ | fuel IH]; intros pos Hpos Hlen Hfuel; [lia | ].
  cbn [dump_rows].
  replace (pos <? len) with true by (symmetry; apply Z.ltb_lt; lia).
  destruct (nth_error data (Z.to_nat pos)) as [b | ] eqn:Hb; [ | reflexivity].
  assert (Hin : (Z.to_nat pos < length data)%nat)
    by (apply nth_error_Some; congruence).
  destruct (dump_row_overrun data len (S fuel) (pos + 1) ltac:(lia) Hlen ltac:(lia))
    as [Hu | (row & pos' & Hr & Hp & Hmod)]; rewrite ?Hu, ?Hr; [reflexivity | ].
  rewrite (IH pos' ltac:(lia) Hlen ltac:(lia)). reflexivity.
Qed.

(** X18.  Dumping more bytes than the array holds reads past its end. *)
Theorem dump_data_overrun (data : list Z) (len : Z) :
  Z.of_nat (length data) < len -> dump_data data len = Some Undefined.
Proof.
  intros Hlen. unfold dump_data.
  apply dump_rows_overrun; lia.
Qed.

Lemma dump_data_overrun_witness : dump_data dump_sample 51 = Some Undefined.
Proof. apply (dump_data_overrun dump_sample 51). vm_compute. reflexivity. Defined.

(** ** More sample runs *)

Section MoreRuns.
Local Existing Instance Sim.sample_config.

Lemma get_failure_leaves_out_witness :
  -1 = 0 \/ (-1 = -1 /\ sample_record = sample_record).
Proof.
  apply (get_failure_leaves_out Sim.device (sample_misc 64 2)
           (snd (exec Sim.device (get_bootloader_message sample_record) (sample_misc 64 2)))
           sample_record sample_record (-1)
           (snd (fst (exec Sim.device (get_bootloader_message sample_record)
                        (sample_misc 64 2))))).
  vm_compute. reflexivity.
Defined.

Lemma get_returns_command_page_witness :
  exists write_size region,
    page_size_in (snd (fst (sample_get 64))) = Some write_size
    /\ region_read (snd (fst (sample_get 64))) = Some region
    /\ Z.of_nat (length region) = to_signed (write_size * MISC_PAGES)
    /\ (exists ctx bytes,
          reads_of (snd (fst (sample_get 64)))
          = [(ctx, Z.of_nat (length region), (Z.of_nat (length region), bytes))])
    /\ to_unsigned write_size + sizeof_bootloader_message <= Z.of_nat (length region)
    /\ sample_returned 64
       = firstn (Z.to_nat sizeof_bootloader_message)
           (skipn (Z.to_nat (to_unsigned write_size)) region).
Proof.
  apply (get_returns_command_page Sim.device (snd (sample_set 64)) (snd (sample_get 64))
           [] (sample_returned 64) (snd (fst (sample_get 64)))).
  vm_compute. reflexivity.
Defined.

Lemma get_only_reads_witness :
  forallb read_side (calls_of (snd (fst (sample_get 64)))) = true
  /\ (fst (fst (sample_get 64)) <> Undefined ->
      read_closes_of (snd (fst (sample_get 64)))
      = opened (read_opens_of (snd (fst (sample_get 64))))).
Proof.
  apply (get_only_reads Sim.device (snd (sample_set 64)) (snd (sample_get 64)) []
           (fst (fst (sample_get 64))) (snd (fst (sample_get 64)))).
  vm_compute. reflexivity.
Defined.

Lemma get_record_too_large_witness : fst (fst sample_small_get) = Undefined.
Proof.
  apply (get_record_too_large Sim.device (sample_misc 16 3) (snd sample_small_get) []
           (fst (fst sample_small_get)) (snd (fst sample_small_get))
           16 Sim.read_ctx 48 (repeat 255 48)).
  - vm_compute. reflexivity.
  - vm_compute. reflexivity.
  - vm_compute. left. reflexivity.
  - lia.
  - vm_compute. reflexivity.
  - vm_compute. reflexivity.
Defined.

Lemma set_short_read_writes_nothing_witness :
  fst (fst sample_short_set) = Done (-1)
  /\ opens_of (snd (fst sample_short_set)) = []
  /\ writes_of (snd (fst sample_short_set)) = []
  /\ read_closes_of (snd (fst sample_short_set)) = [Sim.read_ctx].
Proof.
  apply (set_short_read_writes_nothing Sim.device (sample_misc 64 2) (snd sample_short_set)
           sample_record (fst (fst sample_short_set)) (snd (fst sample_short_set))
           Sim.read_ctx 192 128 (repeat 255 128)).
  - vm_compute. reflexivity.
  - vm_compute. left. reflexivity.
  - lia.
Defined.

Lemma set_writes_region_with_record_witness :
  exists write_size old new,
    page_size_in (snd (fst (sample_set 64))) = Some write_size
    /\ region_read (snd (fst (sample_set 64))) = Some old
    /\ Some (repeat 255 64 ++ sample_record ++ repeat 255 80) = Some new
    /\ 192 = Z.of_nat (length new)
    /\ length new = length old
    /\ let at_ := Z.to_nat (to_unsigned write_size) in
       let n := length (fit sizeof_bootloader_message sample_record) in
       firstn at_ new = firstn at_ old
       /\ firstn n (skipn at_ new) = fit sizeof_bootloader_message sample_record
       /\ skipn (at_ + n) new = skipn (at_ + n) old.
Proof.
  apply (set_writes_region_with_record Sim.device (sample_misc 64 3) (snd (sample_set 64))
           sample_record (fst (fst (sample_set 64))) (snd (fst (sample_set 64)))
           Sim.write_ctx (Some (repeat 255 64 ++ sample_record ++ repeat 255 80)) 192 192).
  - vm_compute. reflexivity.
  - vm_compute. left. reflexivity.
Defined.

Lemma set_success_is_durable_witness :
  exists c new,
    writes_of (snd (fst (sample_set 64)))
    = [(c, Some new, Z.of_nat (length new), Z.of_nat (length new))]
    /\ closes_of (snd (fst (sample_set 64))) = [(c, 0)]
    /\ opens_of (snd (fst (sample_set 64))) <> [].
Proof.
  apply (set_success_is_durable Sim.device (sample_misc 64 3) (snd (sample_set 64))
           sample_record (snd (fst (sample_set 64)))).
  vm_compute. reflexivity.
Defined.

Lemma set_closes_its_sessions_witness :
  let run := exec Sim.device (set_bootloader_message sample_record)
               (Sim.boot (Some (Sim.blank 64 64 3 [])) None [] [6%nat]) in
  (-1 = 0 \/ -1 = -1)
  /\ read_closes_of (snd (fst run)) = opened (read_opens_of (snd (fst run)))
  /\ map fst (closes_of (snd (fst run))) = opened (opens_of (snd (fst run))).
Proof.
  apply (set_closes_its_sessions Sim.device
           (Sim.boot (Some (Sim.blank 64 64 3 [])) None [] [6%nat])
           (snd (exec Sim.device (set_bootloader_message sample_record)
                   (Sim.boot (Some (Sim.blank 64 64 3 [])) None [] [6%nat])))
           sample_record (-1)).
  vm_compute. reflexivity.
Defined.

Lemma set_record_too_large_witness :
  fst (fst (sample_set 16)) = Undefined /\ opens_of (snd (fst (sample_set 16))) = [].
Proof.
  apply (set_record_too_large Sim.device (sample_misc 16 3) (snd (sample_set 16))
           sample_record (fst (fst (sample_set 16))) (snd (fst (sample_set 16)))
           16 Sim.read_ctx 48 (repeat 255 48)).
  - vm_compute. reflexivity.
  - vm_compute. reflexivity.
  - vm_compute. left. reflexivity.
  - lia.
  - vm_compute. reflexivity.
  - vm_compute. reflexivity.
Defined.



(** Two writes in a row, and a write on another session than the one
    just erase-aligned, are told apart. *)
Example writes_follow_erase_align_rejects :
  writes_follow_erase_align None
    [Called (mtd_write_partition (Some 1%nat)) Sim.write_ctx;
     Called (mtd_write_data Sim.write_ctx None 1) 1;
     Called (mtd_write_data Sim.write_ctx None 1) 1] = false
  /\ writes_follow_erase_align None
       [Called (mtd_erase_blocks Sim.read_ctx 0) 0;
        Called (mtd_write_data Sim.write_ctx None 1) 1] = false.
Proof. vm_compute. split; reflexivity. Qed.

Lemma zero_header_short_write_witness :
  let run := sample_update [] [] [2%nat] (Some sample_busy) None in
  fst (fst run) = Done (-1)
  /\ @nil (ptr * option (list Z) * Z * Z) = []
  /\ erases_of (snd (fst run)) = []
  /\ map fst (closes_of (snd (fst run))) = [Sim.write_ctx]
  /\ length (opens_of (snd (fst run))) = 1%nat.
Proof.
  apply (zero_header_short_write Sim.device
           (Sim.boot None (Some (Sim.blank 16 64 12 [])) [] [2%nat])
           (snd (sample_update [] [] [2%nat] (Some sample_busy) None))
           (Some sample_payload) 70 2 2 16 (Some sample_busy) (Some sample_fail) None
           (fst (fst (sample_update [] [] [2%nat] (Some sample_busy) None)))
           (snd (fst (sample_update [] [] [2%nat] (Some sample_busy) None)))
           Sim.write_ctx (Some (zeros header_size)) 60 (-1) []).
  - vm_compute. reflexivity.
  - vm_compute. reflexivity.
  - vm_compute. discriminate.
Defined.

Lemma update_stays_on_cache_witness :
  let tr := snd (fst (sample_update [] [sample_log] [] (Some sample_busy)
                        (Some "recovery.log"%string))) in
  exists part,
    finds_of tr = [(CACHE_NAME, part)]
    /\ Forall (eq part) (partitions_used tr)
    /\ (length (opens_of tr) <= 2)%nat.
Proof.
  apply (update_stays_on_cache Sim.device
           (Sim.boot None (Some (Sim.blank 16 64 12 [])) [sample_log] [])
           (snd (sample_update [] [sample_log] [] (Some sample_busy)
                   (Some "recovery.log"%string)))
           (Some sample_payload) 70 2 2 16 (Some sample_busy) (Some sample_fail)
           (Some "recovery.log"%string)
           (fst (fst (sample_update [] [sample_log] [] (Some sample_busy)
                        (Some "recovery.log"%string))))).
  vm_compute. reflexivity.
Defined.

Lemma final_header_contents_witness :
  let tr := snd (fst (sample_update [1] [] [] (Some sample_busy) None)) in
  let bitmap_length := bitmap_length_of 16 2 2 in
  exists c1 c2 pos_image pos_busy pos_fail p_image p_busy p_fail s1 s2,
    sessions_of tr = [s1; s2]
    /\ (exists reserve last,
          erases_of s1 = reserve ++ [(c1, 0, pos_image); (c1, 0, pos_busy);
                                     (c1, 0, pos_fail); (c1, 0, last)])
    /\ starts_of tr = [(c1, pos_image, p_image); (c1, pos_busy, p_busy);
                       (c1, pos_fail, p_fail)]
    /\ nth_error (writes_of s2) 0
       = Some (c2,
               Some (header_bytes
                       (mk_header UPDATE_MAGIC (to_unsigned UPDATE_VERSION)
                          (to_unsigned header_size)
                          (to_unsigned p_image) (to_unsigned 70)
                          (to_unsigned 2) (to_unsigned 2) (to_unsigned 16)
                          (to_unsigned p_busy)
                          (to_unsigned (if is_null (Some sample_busy) then 0
                                        else bitmap_length))
                          (to_unsigned p_fail)
                          (to_unsigned (if is_null (Some sample_fail) then 0
                                        else bitmap_length)))),
               to_unsigned header_size, header_size).
Proof.
  apply (final_header_contents Sim.device
           (Sim.boot None (Some (Sim.blank 16 64 12 [1])) [] [])
           (snd (sample_update [1] [] [] (Some sample_busy) None))
           (Some sample_payload) 70 2 2 16 (Some sample_busy) (Some sample_fail) None
           (snd (fst (sample_update [1] [] [] (Some sample_busy) None)))).
  vm_compute. reflexivity.
Defined.

Lemma small_erase_size_overruns_witness : fst (fst sample_small_blocks) = Undefined.
Proof.
  apply (small_erase_size_overruns Sim.device
           (Sim.boot None (Some (Sim.blank 16 8 96 [])) [] [])
           (snd sample_small_blocks)
           (Some sample_payload) 70 2 2 16 (Some sample_busy) (Some sample_fail)
           (Some "recovery.log"%string)
           (fst (fst sample_small_blocks)) (snd (fst sample_small_blocks))
           (Some 1%nat) 8).
  - vm_compute. reflexivity.
  - vm_compute. left. reflexivity.
  - vm_compute. split; reflexivity.
Defined.

Lemma log_block_contents_witness :
  let tr := snd (fst (sample_update [] [sample_log] [] (Some sample_busy)
                        (Some "recovery.log"%string))) in
  exists part erase_size f count read bytes log,
    infos_of tr = [(part, erase_size_field, (0, erase_size))]
    /\ freads_of tr = [(f, 1, count, (read, bytes))]
    /\ Some (LOG_MAGIC ++ le32 52 ++ repeat 65 52) = Some log /\ 64 = erase_size
    /\ Z.of_nat (length log) = erase_size
    /\ sizeof_size_t + LOG_MAGIC_SIZE + Z.of_nat (length (fit read bytes)) <= erase_size
    /\ (erase_size < 2 ^ 32 -> count = erase_size - sizeof_size_t - LOG_MAGIC_SIZE)
    /\ firstn (length LOG_MAGIC) log = LOG_MAGIC
    /\ firstn 4 (skipn (length LOG_MAGIC) log) = le32 read
    /\ firstn (length (fit read bytes)) (skipn (length LOG_MAGIC + 4) log) = fit read bytes.
Proof.
  apply (log_block_contents Sim.device
           (Sim.boot None (Some (Sim.blank 16 64 12 [])) [sample_log] [])
           (snd (sample_update [] [sample_log] [] (Some sample_busy)
                   (Some "recovery.log"%string)))
           (Some sample_payload) 70 2 2 16 (Some sample_busy) (Some sample_fail)
           (Some "recovery.log"%string)
           (fst (fst (sample_update [] [sample_log] [] (Some sample_busy)
                        (Some "recovery.log"%string))))
           (snd (fst (sample_update [] [sample_log] [] (Some sample_busy)
                        (Some "recovery.log"%string))))
           (nth 0 (sessions_of (snd (fst (sample_update [] [sample_log] []
                                            (Some sample_busy)
                                            (Some "recovery.log"%string))))) [])
           (nth 1 (sessions_of (snd (fst (sample_update [] [sample_log] []
                                            (Some sample_busy)
                                            (Some "recovery.log"%string))))) [])
           [] Sim.write_ctx (Some (LOG_MAGIC ++ le32 52 ++ repeat 65 52)) 64 64).
  - vm_compute. reflexivity.
  - vm_compute. reflexivity.
  - vm_compute. reflexivity.
Defined.

End MoreRuns.
